(** * picarx/concurrent.py: grayscale line following, Level 4

    A shallow embedding of the sensing / interpretation / control pipeline
    of [picarx/concurrent.py] and the properties of its specification.

    Python floats are modelled by exact rationals ([Q]); the statements that
    compare numbers use [==] (equality of rationals) because a rational has
    several representations.  Modules [Binary64], [Binary64Baseline] and
    [Binary64Control] re-run the arithmetic of [process], of the baseline
    update, of the gain derivation and of the steering law on IEEE
    binary64 numbers, the actual carrier of a Python float; statements
    that hold in exact arithmetic only say so and come with the binary64
    values that show it.

    Python exceptions are values of [exn]; a method of a mutable object is
    a function from the object's state to a [result] and the new state. *)

From Stdlib Require Import QArith Qminmax Qabs Lqa ZArith Lia Bool.
From Stdlib Require Import String Ascii.
From Stdlib Require Import Floats Uint63.
From stdpp Require Import base list.

#[local] Set Warnings "-inexact-float".
Local Open Scope Q_scope.

(* ================================================================== *)
(** ** Python values and control *)

Inductive exn : Type :=
| ValueError (msg : string)
| IndexError
| ZeroDivisionError.

Inductive result (A : Type) : Type :=
| Raise (e : exn)
| Return (a : A).
Arguments Raise {A} e.
Arguments Return {A} a.

(** A method body: reads and writes the state [S] of [self]; an exception
    stops the body and leaves the state as it was when it was raised. *)
Definition M (S A : Type) : Type := S -> result A * S.

Definition ret {S A} (a : A) : M S A := fun s => (Return a, s).
Definition raise {S A} (e : exn) : M S A := fun s => (Raise e, s).
Definition bind {S A B} (c : M S A) (k : A -> M S B) : M S B :=
  fun s => match c s with
           | (Return a, s') => k a s'
           | (Raise e, s') => (Raise e, s')
           end.
Definition get {S} : M S S := fun s => (Return s, s).
Definition put {S} (s : S) : M S unit := fun _ => (Return tt, s).
Definition lift {S A} (r : result A) : M S A := fun s => (r, s).

Notation "'do' x <- c ; k" := (bind c (fun x => k))
  (at level 60, x name, c at next level, right associativity).
Notation "'do' ' p <- c ; k" := (bind c (fun x => match x with p => k end))
  (at level 60, p pattern, c at next level, right associativity).
Notation "'exec' c ; k" := (bind c (fun _ => k))
  (at level 60, c at next level, right associativity).

(** The literals [1e-6] and [1e-9] are written [0.000001] and
    [0.000000001] below. *)

(** [a < b], [a > b], [a >= b] on floats. *)
Definition Qltb (a b : Q) : bool := (Qnum a * QDen b <? Qnum b * QDen a)%Z.
Definition Qgtb (a b : Q) : bool := Qltb b a.
Definition Qgeb (a b : Q) : bool := Qle_bool b a.

(** The builtin [max(a, b)]: the first argument is kept unless the second
    is strictly greater. *)
Definition py_max (a b : Q) : Q := if Qgtb b a then b else a.
Definition py_max3 (a b c : Q) : Q := py_max (py_max a b) c.

(** The builtin [abs]. *)
Definition py_abs (a : Q) : Q := Qabs a.

(** [a / b] on floats raises on a zero divisor. *)
Definition py_div (a b : Q) : result Q :=
  if Qeq_bool b 0 then Raise ZeroDivisionError else Return (a / b).

(** [L, M, R = vals]: unpacking a list into three names. *)
Definition unpack3 {A} (vals : list A) : result (A * A * A) :=
  match vals with
  | [L; M; R] => Return (L, M, R)
  | [] | [_] | [_; _] =>
      Raise (ValueError "not enough values to unpack")
  | _ => Raise (ValueError "too many values to unpack")
  end.

(** [str.lower] on ASCII text: A..Z are mapped to a..z, every other
    character is unchanged. *)
Definition lower_ascii (c : ascii) : ascii :=
  let n := nat_of_ascii c in
  if ((65 <=? n) && (n <=? 90))%nat then ascii_of_nat (n + 32) else c.

Fixpoint lower (s : string) : string :=
  match s with
  | EmptyString => EmptyString
  | String c s' => String (lower_ascii c) (lower s')
  end.

(* ================================================================== *)
(** ** User parameters (module constants) *)

Definition FWD_POWER : Q := 20.
Definition REV_POWER : Q := 30.
Definition SENSOR_DT : Q := 0.02.
Definition INTERP_DT : Q := 0.02.
Definition CONTROL_DT : Q := 0.02.
Definition MAX_ANGLE : Q := 30.
Definition THRESH : Q := 850.
Definition RECOVER_MAX_TIME : Q := 2.5.
Definition RECOVER_DT : Q := 0.01.
Definition RECOVER_STEER : Q := 0.
Definition RESPONSE : Q := 1.
Definition DAMPING : Q := 0.8.
Definition SENSITIVITY : Q := 120.
Definition POLARITY : string := "dark".
Definition DEADBAND : Q := 0.06.
Definition ALPHA : Q := 0.30.

(* ================================================================== *)
(** ** class Bus

    The body of [write] runs under the write lock and the body of [read]
    under a read lock of the same lock object, so the calls of all threads
    on one bus are serialised: a history of a bus is a list of calls. *)
Module Bus.

Record t (Msg : Type) : Type := mk { message : option Msg }.
Arguments mk {Msg} message.
Arguments message {Msg} _.

(** [Bus(initial_message=None)]; Python's [None] is [None]. *)
Definition __init__ {Msg} (initial_message : option Msg) : t Msg :=
  mk initial_message.

Definition write {Msg} (msg : option Msg) : M (t Msg) unit :=
  fun self => (Return tt, mk msg).

Definition read {Msg} : M (t Msg) (option Msg) :=
  fun self => (Return (message self), self).

(** One call on the bus by some thread, and a history of calls. *)
Inductive call (Msg : Type) : Type :=
| Write (msg : option Msg)
| Read.
Arguments Write {Msg} msg.
Arguments Read {Msg}.

Definition apply {Msg} (c : call Msg) : M (t Msg) (option Msg) :=
  match c with
  | Write msg => exec write msg; ret None
  | Read => read
  end.

(** The state of the bus after a history. *)
Definition run {Msg} (cs : list (call Msg)) (self : t Msg) : t Msg :=
  fold_left (fun s c => snd (apply c s)) cs self.

End Bus.

(** Message structures. *)
Record ADCMessage : Type := { adc_t : Q; vals : list Q }.
Record OffsetMessage : Type := { t : Q; offset : option Q }.

(* ================================================================== *)
(** ** class GrayscaleInterpreter *)
Module GrayscaleInterpreter.

Record t : Type := mk {
  sensitivity : Q;
  polarity : string;
  auto_baseline : bool;
  alpha : Q;
  baseline : option (list Q);
  thresh : Q
}.

Definition set_baseline (b : option (list Q)) (self : t) : t :=
  mk (sensitivity self) (polarity self) (auto_baseline self) (alpha self)
     b (thresh self).

(** [GrayscaleInterpreter(sensitivity, polarity, auto_baseline, alpha,
    thresh)]. *)
Definition __init__ (sensitivity : Q) (polarity : string)
    (auto_baseline : bool) (alpha thresh : Q) : result t :=
  let polarity := lower polarity in
  if negb (String.eqb polarity "dark" || String.eqb polarity "light")
  then Raise (ValueError "polarity must be 'dark' or 'light'")
  else Return (mk sensitivity polarity auto_baseline alpha None thresh).

(** The constructor with every default argument. *)
Definition default : result t := __init__ 120 "dark" true 0.02 850.

(** [l[i]] for [0 <= i]. *)
Definition getitem (l : list Q) (i : nat) : result Q :=
  match l !! i with
  | Some x => Return x
  | None => Raise IndexError
  end.

(** One round of the loop of [_update_baseline], on the baseline list:
    [baseline[i] = (1 - alpha) * baseline[i] + alpha * float(v[i])]. *)
Definition update_channel (alpha : Q) (v : list Q) (i : nat)
  : M (list Q) unit :=
  do b <- get;
  do bi <- lift (getitem b i);
  do vi <- lift (getitem v i);
  put (<[i := (1 - alpha) * bi + alpha * vi]> b).

(** [for i in range(n): body(i)]. *)
Fixpoint for_range {S} (i n : nat) (body : nat -> M S unit) : M S unit :=
  match n with
  | O => ret tt
  | Datatypes.S n' => exec body i; for_range (Datatypes.S i) n' body
  end.

Definition _update_baseline (v : list Q) : M t unit :=
  fun self =>
    match baseline self with
    | None => (Return tt, set_baseline (Some v) self)
    | Some b =>
        let (r, b') := for_range 0 3 (update_channel (alpha self) v) b in
        (r, set_baseline (Some b') self)
    end.

(** The offset of the line in [[-1, 1]], or [None] when it is lost. *)
Definition process (vals : list Q) : M t (option Q) :=
  do '(L, M, R) <- lift (unpack3 vals);
  do self <- get;
  exec (if auto_baseline self then _update_baseline [L; M; R] else ret tt);
  do self <- get;
  let dLM := py_abs (L - M) in
  let dMR := py_abs (M - R) in
  let edge_ok := Qgeb (py_max dLM dMR) (sensitivity self) in
  let '(sL, sM, sR) :=
    if String.eqb (polarity self) "dark"
    then (py_max 0 (thresh self - L),
          py_max 0 (thresh self - M),
          py_max 0 (thresh self - R))
    else (py_max 0 (L - thresh self),
          py_max 0 (M - thresh self),
          py_max 0 (R - thresh self)) in
  let total := sL + sM + sR in
  if Qltb total 0.000001 && negb edge_ok then ret None
  else if negb edge_ok && Qltb (py_max3 sL sM sR) (sensitivity self)
  then ret (Some 0)
  else
    do centroid <- lift (py_div (-1 * sL + 0 * sM + 1 * sR) (total + 0.000000001));
    let offset := centroid in
    let offset := if Qgtb offset 1 then 1 else offset in
    let offset := if Qltb offset (-1) then -1 else offset in
    ret (Some offset).

End GrayscaleInterpreter.

(* ================================================================== *)
(** ** The robot and its surroundings

    [px] (class [Picarx]) and the module [time] are outside the program.
    The controller thread sees them through calls; [World] is what these
    calls read and change: the clock, the commands sent so far, and an
    oracle for what the surroundings answer to the next calls.  Every call
    takes some time ([lag_at]), and [sleep(d)] takes [d] more. *)

Inductive Event : Type :=
| Stop
| SetDirServoAngle (angle : Q)
| Forward (power : Q)
| Backward (power : Q)
| Sleep (d : Q).

Record Env : Type := {
  is_set_at : nat -> bool;        (* stop_event.is_set() at that call *)
  adc_at : nat -> Q * Q * Q;      (* the three ADC channels at that call *)
  lag_at : nat -> Q               (* duration of that call *)
}.

Record World : Type := {
  env : Env;
  now : Q;                        (* what time() returns *)
  tick : nat;                     (* calls made so far *)
  log : list Event                (* commands and sleeps, oldest first *)
}.

(** A call that lasts [d] beyond its own lag and leaves [evs] in the log. *)
Definition call (d : Q) (evs : list Event) : M World unit :=
  fun w => (Return tt,
            {| env := env w;
               now := now w + d + lag_at (env w) (tick w);
               tick := S (tick w);
               log := log w ++ evs |}).

Definition px_stop : M World unit := call 0 [Stop].
Definition px_set_dir_servo_angle (a : Q) : M World unit :=
  call 0 [SetDirServoAngle a].
Definition px_forward (p : Q) : M World unit := call 0 [Forward p].
Definition px_backward (p : Q) : M World unit := call 0 [Backward p].
Definition sleep (d : Q) : M World unit := call d [Sleep d].

Definition time : M World Q :=
  exec call 0 []; do w <- get; ret (now w).

Definition is_set : M World bool :=
  do w <- get; exec call 0 []; ret (is_set_at (env w) (tick w)).

(** The list [px.get_grayscale_data()] returns at call [i]. *)
Definition adc_list (e : Env) (i : nat) : list Q :=
  let '(L, M, R) := adc_at e i in [L; M; R].

Definition px_get_grayscale_data : M World (list Q) :=
  do w <- get; exec call 0 []; ret (adc_list (env w) (tick w)).

(** [while True: body], where the body says whether it breaks ([Some])
    or falls through ([None]).  [fuel] bounds the number of rounds;
    [None] stands for a loop that has not finished within it. *)
Fixpoint loop {S A} (fuel : nat) (body : M S (option A)) (s : S)
  : option (result A * S) :=
  match fuel with
  | O => None
  | Datatypes.S fuel' =>
      match body s with
      | (Return (Some a), s') => Some (Return a, s')
      | (Return None, s') => loop fuel' body s'
      | (Raise e, s') => Some (Raise e, s')
      end
  end.

(* ================================================================== *)
(** ** class PDController

    [self.px] is a reference to the one robot object, so [control] runs on
    the controller's own fields and the world. *)
Module PDController.

Record t : Type := mk {
  max_angle : Q;
  dt : Q;
  Kp : Q;
  Kd : Q;
  prev_error : Q;
  has_prev : bool
}.

Definition __init__ (max_angle dt response damping : Q) : t :=
  let Kp := max_angle * response in
  let Kd := Kp * dt * damping in
  mk max_angle dt Kp Kd 0 false.

Definition reset : M t unit :=
  fun self => (Return tt,
               mk (max_angle self) (dt self) (Kp self) (Kd self) 0 false).

Definition set_prev (e : Q) : M t unit :=
  fun self => (Return tt,
               mk (max_angle self) (dt self) (Kp self) (Kd self) e true).

Definition on_self {A} (c : M t A) : M (t * World) A :=
  fun s => let (r, self') := c (fst s) in (r, (self', snd s)).
Definition on_px {A} (c : M World A) : M (t * World) A :=
  fun s => let (r, w') := c (snd s) in (r, (fst s, w')).

Definition control (offset : option Q) : M (t * World) (option Q) :=
  match offset with
  | None => ret None
  | Some e =>
      do self <- on_self get;
      do de <- (if negb (has_prev self)
                then exec on_self (set_prev e); ret 0
                else do q <- lift (py_div (e - prev_error self) (dt self));
                     exec on_self (set_prev e); ret q);
      let angle := Kp self * e + Kd self * de in
      let angle := if Qgtb angle (max_angle self)
                   then max_angle self else angle in
      let angle := if Qltb angle (- max_angle self)
                   then - max_angle self else angle in
      exec on_px (px_set_dir_servo_angle angle);
      ret (Some angle)
  end.

End PDController.

(* ================================================================== *)
(** ** Recovery helpers *)

(** Line seen if any sensor meets the polarity condition against THRESH. *)
Definition line_seen_thresh (vals : list Q) : result bool :=
  match unpack3 vals with
  | Raise e => Raise e
  | Return (L, M, R) =>
      if String.eqb (lower POLARITY) "dark"
      then Return (Qltb L THRESH || Qltb M THRESH || Qltb R THRESH)
      else Return (Qgtb L THRESH || Qgtb M THRESH || Qgtb R THRESH)
  end.

(** Why the poll loop of the recovery was left. *)
Inductive Exit : Type := Cancelled | Reacquired | TimedOut.

(** One round of [while not stop_event.is_set(): ...]. *)
Definition recover_round (t0 : Q) : M World (option Exit) :=
  do stopped <- is_set;
  if stopped then ret (Some Cancelled)
  else
    do vals <- px_get_grayscale_data;
    do seen <- lift (line_seen_thresh vals);
    if seen then ret (Some Reacquired)
    else
      do t1 <- time;
      if Qgtb (t1 - t0) RECOVER_MAX_TIME then ret (Some TimedOut)
      else exec sleep RECOVER_DT; ret None.

(** The maneuver up to and including [t0 = time()]. *)
Definition recover_begin : M World Q :=
  exec px_stop;
  exec sleep 0.15;
  exec px_set_dir_servo_angle RECOVER_STEER;
  exec px_backward REV_POWER;
  time.

(** What follows the loop. *)
Definition recover_end : M World unit :=
  exec px_stop; sleep 0.1.

(** [recover_reverse_until_line(px, stop_event)]; the reason of the exit
    and [t0] are returned for the statements below (Python returns
    [None]).  The [print] of each round is left out. *)
Definition recover_reverse_until_line (fuel : nat) (w : World)
  : option (result (Q * Exit) * World) :=
  match recover_begin w with
  | (Raise e, w1) => Some (Raise e, w1)
  | (Return t0, w1) =>
      match loop fuel (recover_round t0) w1 with
      | None => None
      | Some (Raise e, w2) => Some (Raise e, w2)
      | Some (Return why, w2) =>
          match recover_end w2 with
          | (Raise e, w3) => Some (Raise e, w3)
          | (Return _, w3) => Some (Return (t0, why), w3)
          end
      end
  end.

(* ================================================================== *)
(** ** The controller thread *)

(** The state of [controller_thread_fn]: its controller object, its local
    [prev_offset], and the world. *)
Record Thread : Type := {
  controller : PDController.t;
  prev_offset : Q;
  world : World
}.

Definition on_world {A} (c : M World A) : M Thread A :=
  fun th => let (r, w') := c (world th) in
            (r, {| controller := controller th;
                   prev_offset := prev_offset th;
                   world := w' |}).

Definition on_controller {A} (c : M (PDController.t * World) A)
  : M Thread A :=
  fun th => let (r, s') := c (controller th, world th) in
            (r, {| controller := fst s';
                   prev_offset := prev_offset th;
                   world := snd s' |}).

Definition set_prev_offset (x : Q) : M Thread unit :=
  fun th => (Return tt, {| controller := controller th;
                           prev_offset := x;
                           world := world th |}).

Definition set_world (w : World) (th : Thread) : Thread :=
  {| controller := controller th; prev_offset := prev_offset th;
     world := w |}.

(** The body of [while not stop_event.is_set(): ...] in
    [controller_thread_fn], for the bus as it is when it is read.
    [fuel] bounds the poll loop of a recovery. *)
Definition controller_round (fuel : nat) (offset_bus : Bus.t OffsetMessage)
    (th : Thread) : option (result unit * Thread) :=
  match fst (Bus.read offset_bus) with
  | Raise e => Some (Raise e, th)
  | Return None =>
      Some (on_world (exec px_stop;
                      exec px_set_dir_servo_angle 0;
                      sleep CONTROL_DT) th)
  | Return (Some msg) =>
      match offset msg with
      | None =>
          (* If lost, recover *)
          match px_stop (world th) with
          | (Raise e, w1) => Some (Raise e, set_world w1 th)
          | (Return _, w1) =>
              match recover_reverse_until_line fuel w1 with
              | None => None
              | Some (Raise e, w2) => Some (Raise e, set_world w2 th)
              | Some (Return _, w2) =>
                  Some ((exec on_controller (PDController.on_self
                                               PDController.reset);
                         exec set_prev_offset 0;
                         on_world (sleep CONTROL_DT)) (set_world w2 th))
              end
          end
      | Some offset =>
          (* deadband + smoothing *)
          Some ((let offset :=
                   if Qltb (py_abs offset) DEADBAND then 0 else offset in
                 do th0 <- get;
                 let offset :=
                   ALPHA * offset + (1 - ALPHA) * prev_offset th0 in
                 exec set_prev_offset offset;
                 do angle <- on_controller
                               (PDController.control (Some offset));
                 match angle with
                 | None => exec on_world px_stop;
                           on_world (sleep CONTROL_DT)
                 | Some _ => exec on_world (px_forward FWD_POWER);
                             on_world (sleep CONTROL_DT)
                 end) th)
      end
  end.

(* ================================================================== *)
(** ** The same arithmetic on binary64 numbers

    A Python float is an IEEE 754 binary64 number.  The arithmetic of
    [GrayscaleInterpreter.process] (after the baseline update, which does
    not enter it) and of [PDController.__init__], operation by operation
    in the order Python evaluates them. *)
Module Binary64.

#[local] Set Warnings "-inexact-float".
Local Open Scope float_scope.

Definition fmax (a b : float) : float :=
  if PrimFloat.ltb a b then b else a.
Definition fmax3 (a b c : float) : float := fmax (fmax a b) c.

Definition fdiv (a b : float) : result float :=
  if PrimFloat.eqb b 0 then Raise ZeroDivisionError else Return (a / b).

Definition process (sensitivity thresh : float) (polarity : string)
    (L M R : float) : result (option float) :=
  let dLM := PrimFloat.abs (L - M) in
  let dMR := PrimFloat.abs (M - R) in
  let edge_ok := PrimFloat.leb sensitivity (fmax dLM dMR) in
  let '(sL, sM, sR) :=
    if String.eqb polarity "dark"
    then (fmax 0 (thresh - L), fmax 0 (thresh - M), fmax 0 (thresh - R))
    else (fmax 0 (L - thresh), fmax 0 (M - thresh), fmax 0 (R - thresh)) in
  let total := sL + sM + sR in
  if PrimFloat.ltb total 1e-6 && negb edge_ok then Return None
  else if negb edge_ok && PrimFloat.ltb (fmax3 sL sM sR) sensitivity
  then Return (Some 0)
  else
    match fdiv (-1 * sL + 0 * sM + 1 * sR) (total + 1e-9) with
    | Raise e => Raise e
    | Return centroid =>
        let offset := centroid in
        let offset := if PrimFloat.ltb 1 offset then 1 else offset in
        let offset := if PrimFloat.ltb offset (-1) then -1 else offset in
        Return (Some offset)
    end.

Definition gains (max_angle dt response damping : float) : float * float :=
  let Kp := max_angle * response in
  let Kd := Kp * dt * damping in
  (Kp, Kd).

(** The right-hand side of the baseline assignment for one channel. *)
Definition update (alpha b v : float) : float :=
  (1 - alpha) * b + alpha * v.

End Binary64.

(* ================================================================== *)
(** ** Notions of the specification *)

(** Line strength of one channel (specification, 4.3 step 3): for a dark
    line [max(0, T - x)], for a light line [max(0, x - T)]. *)
Definition strength (self : GrayscaleInterpreter.t) (x : Q) : Q :=
  if String.eqb (GrayscaleInterpreter.polarity self) "dark"
  then Qmax 0 (GrayscaleInterpreter.thresh self - x)
  else Qmax 0 (x - GrayscaleInterpreter.thresh self).

(** The largest jump between adjacent channels (4.3 step 4). *)
Definition contrast (L M R : Q) : Q := Qmax (Qabs (L - M)) (Qabs (M - R)).

(** The arithmetic of [process] (source lines 162-200) on its own: what
    it returns for the readings [L], [M], [R], as a function of the three
    fields it reads; [process_eq] below relates the two. *)
Definition offset_of (sensitivity thresh : Q) (polarity : string)
    (L M R : Q) : result (option Q) :=
  let edge_ok := Qgeb (py_max (py_abs (L - M)) (py_abs (M - R))) sensitivity in
  let s := fun x => if String.eqb polarity "dark"
                    then py_max 0 (thresh - x) else py_max 0 (x - thresh) in
  let total := s L + s M + s R in
  if Qltb total 0.000001 && negb edge_ok then Return None
  else if negb edge_ok && Qltb (py_max3 (s L) (s M) (s R)) sensitivity
  then Return (Some 0)
  else
    match py_div (-1 * s L + 0 * s M + 1 * s R) (total + 0.000000001) with
    | Raise e => Raise e
    | Return c =>
        let c := if Qgtb c 1 then 1 else c in
        Return (Some (if Qltb c (-1) then -1 else c))
    end.

(** The baseline is absent or holds one value per channel. *)
Definition wf_baseline (self : GrayscaleInterpreter.t) : Prop :=
  match GrayscaleInterpreter.baseline self with
  | None => True
  | Some b => length b = 3%nat
  end.

(** Two interpreters with the same sensitivity, polarity and threshold. *)
Definition same_config (s1 s2 : GrayscaleInterpreter.t) : Prop :=
  GrayscaleInterpreter.sensitivity s1 = GrayscaleInterpreter.sensitivity s2
  /\ GrayscaleInterpreter.polarity s1 = GrayscaleInterpreter.polarity s2
  /\ GrayscaleInterpreter.thresh s1 = GrayscaleInterpreter.thresh s2.

(** The results of a series of calls of [process] on one interpreter,
    oldest first, and the interpreter after them. *)
Fixpoint process_all (inputs : list (list Q)) (self : GrayscaleInterpreter.t)
  : list (result (option Q)) * GrayscaleInterpreter.t :=
  match inputs with
  | [] => ([], self)
  | vals :: rest =>
      let (r, self1) := GrayscaleInterpreter.process vals self in
      let (rs, self2) := process_all rest self1 in
      (r :: rs, self2)
  end.

(** The readings of a list of triples, as the lists [process] takes. *)
Definition readings (ts : list (Q * Q * Q)) : list (list Q) :=
  map (fun '(L, M, R) => [L; M; R]) ts.

(** [x] lies between [a] and [b], whichever is larger. *)
Definition between (a x b : Q) : Prop := Qmin a b <= x <= Qmax a b.

(** The interpreter of [run_level4_grayscale], before its first reading. *)
Definition launcher_interp : GrayscaleInterpreter.t :=
  GrayscaleInterpreter.mk SENSITIVITY (lower POLARITY) true 0.02 None THRESH.

(** What an exit of the poll loop of a recovery begun at [t0] rests on:
    a call between [from] and [to] that found the stop event set, or one
    that read a line, or a clock beyond the time limit. *)
Definition exit_justified (t0 : Q) (e : Env) (from to : nat) (clock : Q)
    (why : Exit) : Prop :=
  match why with
  | Cancelled =>
      exists i : nat, (from <= i < to)%nat /\ is_set_at e i = true
  | Reacquired =>
      exists i : nat, (from <= i < to)%nat
                      /\ line_seen_thresh (adc_list e i) = Return true
  | TimedOut => t0 + RECOVER_MAX_TIME < clock
  end.

(** Surroundings in which nobody stops the program, the floor shows no
    line (every channel reads 1000) and calls take no time; and the world
    at time 0 in them. *)
Definition quiet_env : Env :=
  {| is_set_at := fun _ => false;
     adc_at := fun _ => (1000, 1000, 1000);
     lag_at := fun _ => 0 |}.

Definition quiet_world : World :=
  {| env := quiet_env; now := 0; tick := 0; log := [] |}.

(** Every call of the surroundings takes a non-negative time. *)
Definition causal (e : Env) : Prop := forall k : nat, 0 <= lag_at e k.

(* ================================================================== *)
(** ** class GrayscaleSensor, once [attach_px] has run

    Each of the three accessors polls the robot and takes one entry of the
    list it gets; [read] calls the three in turn. *)
Module GrayscaleSensor.

Definition adc (i : nat) : M World Q :=
  do l <- px_get_grayscale_data;
  lift (GrayscaleInterpreter.getitem l i).

Definition adc_left : M World Q := adc 0.
Definition adc_mid : M World Q := adc 1.
Definition adc_right : M World Q := adc 2.

Definition read : M World (list Q) :=
  do L <- adc_left;
  do M <- adc_mid;
  do R <- adc_right;
  ret [L; M; R].

End GrayscaleSensor.

(* ================================================================== *)
(** ** The sensor and interpreter threads *)

Definition on_fst {S1 S2 A} (c : M S1 A) : M (S1 * S2) A :=
  fun s => let (r, s1) := c (fst s) in (r, (s1, snd s)).
Definition on_snd {S1 S2 A} (c : M S2 A) : M (S1 * S2) A :=
  fun s => let (r, s2) := c (snd s) in (r, (fst s, s2)).

(** The body of the loop of [sensor_thread_fn], on the bus it writes and
    the world. *)
Definition sensor_round : M (Bus.t ADCMessage * World) unit :=
  do v <- on_snd GrayscaleSensor.read;
  do now_ <- on_snd time;
  exec on_fst (Bus.write (Some {| adc_t := now_; vals := v |}));
  on_snd (sleep SENSOR_DT).

(** The state of [interpreter_thread_fn]: its interpreter, its local
    [last_t], the bus it writes, and the world. *)
Record InterpreterThread : Type := {
  it_interp : GrayscaleInterpreter.t;
  it_last_t : option Q;
  it_offset_bus : Bus.t OffsetMessage;
  it_world : World
}.

Definition it_sleep (d : Q) : M InterpreterThread unit :=
  fun st => let (r, w') := sleep d (it_world st) in
            (r, {| it_interp := it_interp st; it_last_t := it_last_t st;
                   it_offset_bus := it_offset_bus st; it_world := w' |}).

Definition it_time : M InterpreterThread Q :=
  fun st => let (r, w') := time (it_world st) in
            (r, {| it_interp := it_interp st; it_last_t := it_last_t st;
                   it_offset_bus := it_offset_bus st; it_world := w' |}).

Definition it_set_last_t (x : Q) : M InterpreterThread unit :=
  fun st => (Return tt,
             {| it_interp := it_interp st; it_last_t := Some x;
                it_offset_bus := it_offset_bus st; it_world := it_world st |}).

Definition it_process (v : list Q) : M InterpreterThread (option Q) :=
  fun st => let (r, i') := GrayscaleInterpreter.process v (it_interp st) in
            (r, {| it_interp := i'; it_last_t := it_last_t st;
                   it_offset_bus := it_offset_bus st;
                   it_world := it_world st |}).

Definition it_write (m : OffsetMessage) : M InterpreterThread unit :=
  fun st => let (r, b') := Bus.write (Some m) (it_offset_bus st) in
            (r, {| it_interp := it_interp st; it_last_t := it_last_t st;
                   it_offset_bus := b'; it_world := it_world st |}).

(** [msg is None or (last_t is not None and msg.t == last_t)]. *)
Definition stale (msg : option ADCMessage) (last : option Q) : bool :=
  match msg with
  | None => true
  | Some m => match last with
              | Some l => Qeq_bool (adc_t m) l
              | None => false
              end
  end.

(** The body of the loop of [interpreter_thread_fn], for the sensor bus
    as it is when it is read. *)
Definition interpreter_round (adc_bus : Bus.t ADCMessage)
  : M InterpreterThread unit :=
  do msg <- lift (fst (Bus.read adc_bus));
  do st <- get;
  if stale msg (it_last_t st) then it_sleep INTERP_DT
  else
    match msg with
    | None => it_sleep INTERP_DT
    | Some m =>
        exec it_set_last_t (adc_t m);
        do o <- it_process (vals m);
        do now_ <- it_time;
        exec it_write (Build_OffsetMessage now_ o);
        it_sleep INTERP_DT
    end.

(* ================================================================== *)
(** ** [controller_thread_fn]

    The loop [while not stop_event.is_set(): ...] for the offset bus as
    the successive rounds find it ([buses]); the run ends with [true] when
    the stop event is found set and with [false] when [buses] is used up
    (the thread is still running). *)
Fixpoint controller_loop (fuel : nat) (buses : list (Bus.t OffsetMessage))
    (th : Thread) : option (result bool * Thread) :=
  match buses with
  | [] => Some (Return false, th)
  | b :: rest =>
      match on_world is_set th with
      | (Raise e, th1) => Some (Raise e, th1)
      | (Return true, th1) => Some (Return true, th1)
      | (Return false, th1) =>
          match controller_round fuel b th1 with
          | None => None
          | Some (Raise e, th2) => Some (Raise e, th2)
          | Some (Return _, th2) => controller_loop fuel rest th2
          end
      end
  end.

Definition controller_thread_fn (fuel : nat)
    (buses : list (Bus.t OffsetMessage)) (ctl : PDController.t) (w : World)
  : option (result bool * Thread) :=
  controller_loop fuel buses
    {| controller := ctl; prev_offset := 0; world := w |}.

(* ================================================================== *)
(** ** More notions for the statements *)

(** The offset of the specification (4.3, steps 5 to 7) for three
    readings, without the clamp: lost, centred, or the centroid. *)
Definition offset_spec (self : GrayscaleInterpreter.t) (L M R : Q)
    (o : option Q) : Prop :=
  let total := strength self L + strength self M + strength self R in
  let top := Qmax (Qmax (strength self L) (strength self M))
                  (strength self R) in
  let sens := GrayscaleInterpreter.sensitivity self in
  let lost := total < 0.000001 /\ contrast L M R < sens in
  let centred := contrast L M R < sens /\ top < sens in
  match o with
  | None => lost
  | Some r =>
      ~ lost
      /\ ((centred /\ r == 0)
          \/ (~ centred
              /\ r == (strength self R - strength self L)
                      / (total + 0.000000001)))
  end.

(** Two results that are equal as numbers. *)
Definition same_offset (o1 o2 : option Q) : Prop :=
  match o1, o2 with
  | None, None => True
  | Some a, Some b => a == b
  | _, _ => False
  end.

(** The result for the mirrored scene. *)
Definition mirrored (o : option Q) : option Q :=
  match o with None => None | Some r => Some (- r) end.

(** The controller's gains are those its constructor derives for some
    damping. *)
Definition derived_gains (c : PDController.t) (damping : Q) : Prop :=
  PDController.Kd c == PDController.Kp c * PDController.dt c * damping.

(** [q] to the power [n]. *)
Fixpoint Qpow (q : Q) (n : nat) : Q :=
  match n with
  | O => 1
  | S n' => q * Qpow q n'
  end.

(** The interpreter after [n] calls of [_update_baseline] on the same
    readings. *)
Definition settle (n : nat) (v : list Q) (self : GrayscaleInterpreter.t)
  : GrayscaleInterpreter.t :=
  Nat.iter n (fun s => snd (GrayscaleInterpreter._update_baseline v s)) self.

(** A clamp to [[-m, m]]. *)
Definition clamp (m x : Q) : Q := Qmax (- m) (Qmin m x).

(** Every offset a bus may hold lies in [[-1, 1]]. *)
Definition offsets_in_range (b : Bus.t OffsetMessage) : Prop :=
  forall (m : OffsetMessage) (o : Q),
    Bus.message b = Some m -> offset m = Some o -> -1 <= o <= 1.

(** No call of the surroundings takes longer than [d]. *)
Definition prompt (e : Env) (d : Q) : Prop := forall k : nat, lag_at e k <= d.

(** The deadband of [controller_thread_fn]. *)
Definition deadband (o : Q) : Q := if Qltb (py_abs o) DEADBAND then 0 else o.

(** A steering command within the limit [m]; other events are not
    constrained. *)
Definition steer_within (m : Q) (ev : Event) : Prop :=
  match ev with
  | SetDirServoAngle a => - m <= a <= m
  | _ => True
  end.

(* ================================================================== *)
(** ** Notions for the recovery's exits *)

(** A reading that crosses the threshold on the side of the line for the
    module's [POLARITY]: below [THRESH] for a dark line, above it for a
    light one. *)
Definition crosses (x : Q) : Prop :=
  if String.eqb (lower POLARITY) "dark" then x < THRESH else THRESH < x.

(** A poll that shows the line: some channel crosses the threshold. *)
Definition line_visible (v : Q * Q * Q) : Prop :=
  let '(L, M, R) := v in crosses L \/ crosses M \/ crosses R.

(** What decides the exit of the poll loop, in the round whose first call
    is call [i]: the stop event found set at that call; or else a line in
    the poll that follows; or else a clock beyond the time limit. *)
Definition exit_exact (t0 : Q) (e : Env) (i : nat) (clock : Q) (why : Exit)
  : Prop :=
  match why with
  | Cancelled => is_set_at e i = true
  | Reacquired => is_set_at e i = false /\ line_visible (adc_at e (i + 1))
  | TimedOut => is_set_at e i = false /\ ~ line_visible (adc_at e (i + 1))
                /\ t0 + RECOVER_MAX_TIME < clock
  end.

(** Round [j] of the poll loop of a recovery entered at call [i] makes its
    stop check at call [i + 5 + 4 * j] and its poll at the next call. *)
Definition check_of (i j : nat) : nat := (i + 5 + 4 * j)%nat.

(* ================================================================== *)
(** ** The baseline and the steering law on binary64 numbers

    [_update_baseline] and the arithmetic of [control], statement by
    statement as in [GrayscaleInterpreter] and [PDController] above, on
    the binary64 numbers the code computes with. *)
Module Binary64Baseline.

Local Open Scope float_scope.

Definition getitem (l : list float) (i : nat) : result float :=
  match l !! i with
  | Some x => Return x
  | None => Raise IndexError
  end.

Definition update_channel (alpha : float) (v : list float) (i : nat)
  : M (list float) unit :=
  do b <- get;
  do bi <- lift (getitem b i);
  do vi <- lift (getitem v i);
  put (<[i := (1 - alpha) * bi + alpha * vi]> b).

(** On the [baseline] attribute, for the interpreter's [alpha]. *)
Definition _update_baseline (alpha : float) (v : list float)
  : M (option (list float)) unit :=
  fun baseline =>
    match baseline with
    | None => (Return tt, Some v)
    | Some b =>
        let (r, b') :=
          GrayscaleInterpreter.for_range 0 3 (update_channel alpha v) b in
        (r, Some b')
    end.

End Binary64Baseline.

Module Binary64Control.

Local Open Scope float_scope.

(** The angle [control] computes once a previous error is stored. *)
Definition angle (max_angle dt Kp Kd prev_error e : float) : float :=
  let de := (e - prev_error) / dt in
  let angle := Kp * e + Kd * de in
  let angle := if PrimFloat.ltb max_angle angle then max_angle else angle in
  if PrimFloat.ltb angle (- max_angle) then - max_angle else angle.

(** The same for a controller built by [__init__]. *)
Definition angle_of (max_angle dt response damping prev_error e : float)
  : float :=
  let '(Kp, Kd) := Binary64.gains max_angle dt response damping in
  angle max_angle dt Kp Kd prev_error e.

End Binary64Control.

(** The binary64 number of a natural number (an ADC count). *)
Definition float_of_nat (n : nat) : float :=
  PrimFloat.of_uint63 (Uint63.of_Z (Z.of_nat n)).

(** Within [tol] of the interval between [b] and [v]; inside it. *)
Definition near (tol b v x : float) : bool :=
  let lo := if PrimFloat.ltb v b then v else b in
  let hi := if PrimFloat.ltb b v then v else b in
  (PrimFloat.leb (lo - tol) x && PrimFloat.leb x (hi + tol))%float.

Definition inside (b v x : float) : bool :=
  let lo := if PrimFloat.ltb v b then v else b in
  let hi := if PrimFloat.ltb b v then v else b in
  PrimFloat.leb lo x && PrimFloat.leb x hi.

(** The ADC counts 0 .. 4095 as binary64 numbers, and the check of the
    update with alpha 0.02 on a pair of values. *)
Definition adc_floats : list float := map float_of_nat (seq 0 4096).

Definition update_checked (b v : float) : bool :=
  let x := Binary64.update 0.02 b v in
  near 1e-12 b v x && (PrimFloat.eqb b v || inside b v x).

(* ================================================================== *)
(** * Properties *)

(** ** Bus *)

Section BusFacts.
Context {Msg : Type}.
Implicit Types (self : Bus.t Msg) (cs : list (Bus.call Msg)).

Lemma run_app cs1 cs2 self :
  Bus.run (cs1 ++ cs2) self = Bus.run cs2 (Bus.run cs1 self).
Proof. unfold Bus.run. apply fold_left_app. Qed.

Lemma run_reads n self : Bus.run (repeat Bus.Read n) self = self.
Proof.
  induction n as [|n IH]; [reflexivity|]. simpl. destruct self. exact IH.
Qed.

Lemma read_after_write msg self :
  fst (Bus.read (snd (Bus.write msg self))) = Return msg.
Proof. reflexivity. Qed.
End BusFacts.

(** C2. A bus built with the default initial message answers [None] to
    every [read] as long as no [write] has happened; after any history of
    calls that contains a [write], [read] answers the argument of the
    most recent [write], whatever was stored before. *)
Theorem bus_read_latest (Msg : Type) :
  (forall n : nat,
     fst (Bus.read (Bus.run (repeat Bus.Read n) (Bus.__init__ (Msg := Msg) None)))
     = Return None)
  /\ (forall (init : option Msg) (cs : list (Bus.call Msg))
             (msg : option Msg) (n : nat),
        fst (Bus.read (Bus.run (cs ++ Bus.Write msg :: repeat Bus.Read n)
                               (Bus.__init__ init)))
        = Return msg).
Proof.
  split.
  - intros n. now rewrite run_reads.
  - intros init cs msg n.
    rewrite run_app. change (Bus.Write msg :: repeat Bus.Read n)
      with ([Bus.Write msg] ++ repeat Bus.Read n).
    rewrite run_app, run_reads. reflexivity.
Qed.

(** ** Comparisons and builtins *)

Lemma Qltb_lt a b : Qltb a b = true <-> a < b.
Proof. unfold Qltb, Qlt. apply Z.ltb_lt. Qed.

Lemma Qltb_ge a b : Qltb a b = false <-> b <= a.
Proof. unfold Qltb, Qle. rewrite Z.ltb_ge. reflexivity. Qed.

Lemma Qgtb_gt a b : Qgtb a b = true <-> b < a.
Proof. apply Qltb_lt. Qed.

Lemma Qgtb_le a b : Qgtb a b = false <-> a <= b.
Proof. apply Qltb_ge. Qed.

Lemma Qgeb_ge a b : Qgeb a b = true <-> b <= a.
Proof. apply Qle_bool_iff. Qed.

Lemma Qgeb_lt a b : Qgeb a b = false <-> a < b.
Proof.
  unfold Qgeb. rewrite <- not_true_iff_false, Qle_bool_iff.
  split; [apply Qnot_le_lt | apply Qlt_not_le].
Qed.

Lemma py_max_Qmax a b : py_max a b == Qmax a b.
Proof.
  unfold py_max. destruct (Qgtb b a) eqn:E.
  - apply Qgtb_gt in E. symmetry. apply Q.max_r. lra.
  - apply Qgtb_le in E. symmetry. apply Q.max_l. exact E.
Qed.

Lemma py_max_cases a b :
  (a < b /\ py_max a b = b) \/ (b <= a /\ py_max a b = a).
Proof.
  unfold py_max. destruct (Qgtb b a) eqn:E.
  - left. apply Qgtb_gt in E. auto.
  - right. apply Qgtb_le in E. auto.
Qed.

Lemma py_max_nonneg a : 0 <= py_max 0 a.
Proof. destruct (py_max_cases 0 a) as [[? ->]|[? ->]]; lra. Qed.

Lemma py_div_pos a b : 0 < b -> py_div a b = Return (a / b).
Proof.
  intros Hb. unfold py_div. destruct (Qeq_bool b 0) eqn:E; [|reflexivity].
  apply Qeq_bool_iff in E. lra.
Qed.

(** ** The interpreter: structure of [process] *)

Import GrayscaleInterpreter.

Lemma update_baseline_fields v self :
  let self' := snd (_update_baseline v self) in
  sensitivity self' = sensitivity self /\ polarity self' = polarity self
  /\ thresh self' = thresh self /\ alpha self' = alpha self
  /\ auto_baseline self' = auto_baseline self.
Proof.
  unfold _update_baseline. cbv zeta.
  destruct (baseline self) as [b|].
  - destruct (for_range 0 3 (update_channel (alpha self) v) b).
    simpl. tauto.
  - simpl. tauto.
Qed.

Lemma process_unpack vals self :
  process vals self =
  match unpack3 vals with
  | Raise e => (Raise e, self)
  | Return (L, M, R) => process [L; M; R] self
  end.
Proof.
  destruct vals as [|L [|M [|R [|x vals]]]]; reflexivity.
Qed.

Lemma process_eq self L M R :
  process [L; M; R] self =
  match (if auto_baseline self then _update_baseline [L; M; R] else ret tt) self
  with
  | (Raise e, self1) => (Raise e, self1)
  | (Return _, self1) =>
      (offset_of (sensitivity self) (thresh self) (polarity self) L M R, self1)
  end.
Proof.
  unfold process, bind, lift, get. simpl unpack3. cbv iota beta.
  assert (F := update_baseline_fields [L; M; R] self). cbv zeta in F.
  destruct (auto_baseline self).
  - destruct (_update_baseline [L; M; R] self) as [[e|[]] self1]; [reflexivity|].
    simpl in F. destruct F as (-> & -> & -> & _).
    unfold offset_of.
    destruct (String.eqb (polarity self) "dark"); cbv iota beta zeta;
      repeat match goal with
             | |- context [if ?c then _ else _] =>
                 match c with
                 | context [if _ then _ else _] => fail 1
                 | _ => destruct c eqn:?
                 end
             end; try reflexivity.
    all: unfold ret; destruct (py_div _ _); reflexivity.
  - unfold ret at 1. cbv iota beta. unfold offset_of.
    destruct (String.eqb (polarity self) "dark"); cbv iota beta zeta;
      destruct (_ && _); try reflexivity;
      destruct (_ && _); try reflexivity;
      unfold ret; destruct (py_div _ _); reflexivity.
Qed.

Section OffsetArithmetic.
Variables (sens th : Q) (pol : string) (L M R : Q).

(** The strength of a channel in [offset_of]. *)
Let s (x : Q) : Q :=
  if String.eqb pol "dark" then py_max 0 (th - x) else py_max 0 (x - th).

Lemma channel_nonneg x : 0 <= s x.
Proof. unfold s. destruct (String.eqb pol "dark"); apply py_max_nonneg. Qed.

Lemma total_nonneg : 0 <= s L + s M + s R.
Proof.
  pose proof (channel_nonneg L). pose proof (channel_nonneg M).
  pose proof (channel_nonneg R). lra.
Qed.

Lemma centroid_defined :
  py_div (-1 * s L + 0 * s M + 1 * s R) (s L + s M + s R + 0.000000001)
  = Return ((-1 * s L + 0 * s M + 1 * s R) / (s L + s M + s R + 0.000000001)).
Proof. apply py_div_pos. pose proof total_nonneg. lra. Qed.

(** The two clamping statements leave a value of [[-1, 1]]. *)
Lemma clamp_range c :
  let c1 := if Qgtb c 1 then 1 else c in
  -1 <= (if Qltb c1 (-1) then -1 else c1) <= 1.
Proof.
  cbv zeta. destruct (Qgtb c 1) eqn:E1.
  - destruct (Qltb 1 (-1)) eqn:E2; lra.
  - apply Qgtb_le in E1. destruct (Qltb c (-1)) eqn:E2; [lra|].
    apply Qltb_ge in E2. lra.
Qed.

Lemma offset_of_returns : exists o, offset_of sens th pol L M R = Return o.
Proof.
  unfold offset_of. cbv zeta beta. fold (s L) (s M) (s R).
  destruct (_ && _); [eauto|]. destruct (_ && _); [eauto|].
  rewrite centroid_defined. eauto.
Qed.

Lemma offset_of_range r :
  offset_of sens th pol L M R = Return (Some r) -> -1 <= r <= 1.
Proof.
  unfold offset_of. cbv zeta beta. fold (s L) (s M) (s R).
  destruct (_ && _); [discriminate|].
  destruct (_ && _); [intros [= <-]; lra|].
  rewrite centroid_defined. intros [= <-]. apply clamp_range.
Qed.

Lemma offset_of_lost_iff :
  offset_of sens th pol L M R = Return None
  <-> Qltb (s L + s M + s R) 0.000001 = true
      /\ Qgeb (py_max (py_abs (L - M)) (py_abs (M - R))) sens = false.
Proof.
  unfold offset_of. cbv zeta beta. fold (s L) (s M) (s R).
  destruct (Qltb (s L + s M + s R) 0.000001);
    destruct (Qgeb (py_max (py_abs (L - M)) (py_abs (M - R))) sens);
    simpl; try rewrite centroid_defined;
    try destruct (Qltb (py_max3 (s L) (s M) (s R)) sens);
    try rewrite centroid_defined;
    (split; [try discriminate; auto | intros [? ?]; try discriminate; auto]).
Qed.

Lemma channel_strength x :
  s x == (if String.eqb pol "dark" then Qmax 0 (th - x) else Qmax 0 (x - th)).
Proof. unfold s. destruct (String.eqb pol "dark"); apply py_max_Qmax. Qed.

(** [process] reports a lost line exactly when the total strength is below
    the tolerance and the contrast below the sensitivity. *)
Lemma offset_of_lost :
  let q := fun x => if String.eqb pol "dark"
                    then Qmax 0 (th - x) else Qmax 0 (x - th) in
  offset_of sens th pol L M R = Return None
  <-> q L + q M + q R < 0.000001 /\ contrast L M R < sens.
Proof.
  cbv zeta. rewrite offset_of_lost_iff, Qltb_lt, Qgeb_lt.
  unfold py_abs, contrast.
  rewrite (channel_strength L), (channel_strength M), (channel_strength R).
  rewrite py_max_Qmax. reflexivity.
Qed.

End OffsetArithmetic.

(** ** The interpreter: the baseline *)

Lemma update_baseline_first v self :
  baseline self = None ->
  _update_baseline v self = (Return tt, set_baseline (Some v) self).
Proof. unfold _update_baseline. now intros ->. Qed.

Lemma update_baseline_next b0 b1 b2 v0 v1 v2 self :
  baseline self = Some [b0; b1; b2] ->
  _update_baseline [v0; v1; v2] self =
  (Return tt,
   set_baseline (Some [(1 - alpha self) * b0 + alpha self * v0;
                       (1 - alpha self) * b1 + alpha self * v1;
                       (1 - alpha self) * b2 + alpha self * v2]) self).
Proof. unfold _update_baseline. now intros ->. Qed.

Lemma update_baseline_wf self L M R :
  wf_baseline self ->
  fst (_update_baseline [L; M; R] self) = Return tt
  /\ wf_baseline (snd (_update_baseline [L; M; R] self)).
Proof.
  unfold wf_baseline. destruct (baseline self) as [b|] eqn:E.
  - intros Hb. destruct b as [|b0 [|b1 [|b2 [|]]]]; try discriminate.
    rewrite (update_baseline_next _ _ _ _ _ _ _ E). simpl. auto.
  - intros _. rewrite (update_baseline_first _ _ E). simpl. auto.
Qed.

(** On three readings and a well-formed baseline, [process] returns what
    [offset_of] says and keeps the baseline well formed and the
    configuration unchanged. *)
Lemma process_wf self L M R :
  wf_baseline self ->
  fst (process [L; M; R] self)
  = offset_of (sensitivity self) (thresh self) (polarity self) L M R
  /\ wf_baseline (snd (process [L; M; R] self))
  /\ same_config (snd (process [L; M; R] self)) self.
Proof.
  intros Hwf. rewrite process_eq. destruct (auto_baseline self).
  - destruct (update_baseline_wf self L M R Hwf) as [Hr Hw].
    pose proof (update_baseline_fields [L; M; R] self) as F. cbv zeta in F.
    destruct (_update_baseline [L; M; R] self) as [[e|[]] self1];
      simpl in *; [discriminate|].
    unfold same_config. intuition.
  - simpl. unfold same_config. auto.
Qed.

Lemma process_any self vals :
  wf_baseline self ->
  fst (process vals self)
  = match unpack3 vals with
    | Raise e => Raise e
    | Return (L, M, R) =>
        offset_of (sensitivity self) (thresh self) (polarity self) L M R
    end
  /\ wf_baseline (snd (process vals self))
  /\ same_config (snd (process vals self)) self.
Proof.
  intros Hwf. rewrite process_unpack.
  destruct (unpack3 vals) as [e|[[L M] R]].
  - simpl. unfold same_config. auto.
  - apply process_wf, Hwf.
Qed.

Lemma same_config_trans s1 s2 s3 :
  same_config s1 s2 -> same_config s2 s3 -> same_config s1 s3.
Proof. unfold same_config. intuition congruence. Qed.

Lemma same_config_sym s1 s2 : same_config s1 s2 -> same_config s2 s1.
Proof. unfold same_config. intuition congruence. Qed.

Lemma process_any_indep s1 s2 vals :
  same_config s1 s2 -> wf_baseline s1 -> wf_baseline s2 ->
  fst (process vals s1) = fst (process vals s2).
Proof.
  intros (Hs & Hp & Ht) H1 H2.
  destruct (process_any s1 vals H1) as (-> & _).
  destruct (process_any s2 vals H2) as (-> & _).
  now rewrite Hs, Hp, Ht.
Qed.

Lemma process_all_indep inputs : forall s1 s2,
  same_config s1 s2 -> wf_baseline s1 -> wf_baseline s2 ->
  fst (process_all inputs s1) = fst (process_all inputs s2).
Proof.
  induction inputs as [|vals rest IH]; intros s1 s2 Hc H1 H2; [reflexivity|].
  simpl.
  pose proof (process_any_indep s1 s2 vals Hc H1 H2) as Hr.
  destruct (process_any s1 vals H1) as (_ & W1 & C1).
  destruct (process_any s2 vals H2) as (_ & W2 & C2).
  destruct (process vals s1) as [r1 t1], (process vals s2) as [r2 t2].
  simpl in *. subst r2.
  assert (Hc' : same_config t1 t2).
  { eapply same_config_trans; [exact C1|].
    eapply same_config_trans; [exact Hc|]. now apply same_config_sym. }
  specialize (IH t1 t2 Hc' W1 W2).
  destruct (process_all rest t1), (process_all rest t2). simpl in *.
  now subst.
Qed.

Lemma process_all_returns ts : forall self,
  wf_baseline self ->
  Forall (fun r => exists o, r = Return o) (fst (process_all (readings ts) self)).
Proof.
  induction ts as [|[[L M] R] ts IH]; intros self Hwf; simpl; [constructor|].
  destruct (process_wf self L M R Hwf) as (Hr & W & _).
  destruct (process [L; M; R] self) as [r self1]. simpl in *.
  specialize (IH self1 W).
  destruct (process_all (readings ts) self1). simpl in *.
  constructor; [|exact IH]. subst r. apply offset_of_returns.
Qed.

(** Which exceptions [process] can raise at all. *)
Lemma process_raises self vals e :
  fst (process vals self) = Raise e ->
  e = ValueError "not enough values to unpack"
  \/ e = ValueError "too many values to unpack"
  \/ e = IndexError.
Proof.
  rewrite process_unpack.
  destruct vals as [|L [|M [|R [|x vals]]]]; simpl unpack3; cbv iota beta;
    try (simpl; intros [= <-]; auto; fail).
  rewrite process_eq.
  destruct (auto_baseline self).
  - unfold _update_baseline.
    destruct (baseline self) as [b|].
    + destruct b as [|b0 [|b1 [|b2 b]]]; simpl; try (intros [= <-]; auto).
      destruct (offset_of_returns (sensitivity self) (thresh self)
                  (polarity self) L M R) as [o ->]. discriminate.
    + simpl.
      destruct (offset_of_returns (sensitivity self) (thresh self)
                  (polarity self) L M R) as [o ->]. discriminate.
  - simpl.
    destruct (offset_of_returns (sensitivity self) (thresh self)
                (polarity self) L M R) as [o ->]. discriminate.
Qed.

Lemma process_all_no_polarity_error inputs : forall self,
  Forall (fun r => r <> Raise (ValueError "polarity must be 'dark' or 'light'"))
         (fst (process_all inputs self)).
Proof.
  induction inputs as [|vals rest IH]; intros self; simpl; [constructor|].
  pose proof (process_raises self vals) as Hr.
  destruct (process vals self) as [r self1]. simpl in Hr.
  specialize (IH self1). destruct (process_all rest self1). simpl in *.
  constructor; [|exact IH].
  intros ->. destruct (Hr _ eq_refl) as [H|[H|H]]; discriminate.
Qed.

Lemma convex_between a b al :
  0 <= al <= 1 -> between a ((1 - al) * a + al * b) b.
Proof.
  intros [H0 H1]. unfold between.
  destruct (Qlt_le_dec a b) as [Hab|Hba].
  - rewrite (Q.min_l a b), (Q.max_r a b) by lra. split; nra.
  - rewrite (Q.min_r a b), (Q.max_l a b) by lra. split; nra.
Qed.

Lemma convex_closer a b al :
  0 <= al <= 1 -> Qabs (b - ((1 - al) * a + al * b)) <= Qabs (b - a).
Proof.
  intros [H0 H1].
  apply Qabs_case; intros Hx; apply Qabs_case; intros Hy; nra.
Qed.

(** ** The interpreter: claims *)

(** C1. Whatever the configuration, the baseline and the list of readings,
    a value other than [None] returned by [process] lies in the closed
    interval from -1 to 1.  (No assumption on the polarity field is needed:
    every value of it other than "dark" is handled as "light".) *)
Theorem process_offset_in_range (self self' : GrayscaleInterpreter.t)
    (vals : list Q) (r : Q) :
  process vals self = (Return (Some r), self') -> -1 <= r <= 1.
Proof.
  rewrite process_unpack.
  destruct (unpack3 vals) as [e|[[L M] R]]; [discriminate|].
  rewrite process_eq.
  destruct ((if auto_baseline self then _update_baseline [L; M; R] else ret tt)
              self) as [[e|[]] self1]; [discriminate|].
  intros [= H _]. exact (offset_of_range _ _ _ _ _ _ _ H).
Qed.

Lemma process_offset_in_range_witness :
  -1 <= (-650000000000 # 650000000001) <= 1.
Proof.
  apply (process_offset_in_range launcher_interp
           (set_baseline (Some [200; 900; 900]) launcher_interp)
           [200; 900; 900]).
  vm_compute. reflexivity.
Defined.

(** Exact arithmetic.  With a smoothing factor between 0 and 1, a call
    of
    [_update_baseline] on three readings replaces each of the three
    baseline values by (1 - alpha) * old + alpha * reading; the new value
    lies between the old value and the reading and is at least as close to
    the reading as the old one.  The first call (no baseline yet) stores
    the readings themselves. *)
Theorem update_baseline_convex (self : GrayscaleInterpreter.t)
    (v0 v1 v2 : Q) :
  0 <= alpha self <= 1 ->
  (baseline self = None ->
   _update_baseline [v0; v1; v2] self
   = (Return tt, set_baseline (Some [v0; v1; v2]) self))
  /\ (forall b0 b1 b2 : Q,
        baseline self = Some [b0; b1; b2] ->
        exists n0 n1 n2 : Q,
          _update_baseline [v0; v1; v2] self
          = (Return tt, set_baseline (Some [n0; n1; n2]) self)
          /\ (n0 == (1 - alpha self) * b0 + alpha self * v0
              /\ n1 == (1 - alpha self) * b1 + alpha self * v1
              /\ n2 == (1 - alpha self) * b2 + alpha self * v2)
          /\ (between b0 n0 v0 /\ between b1 n1 v1 /\ between b2 n2 v2)
          /\ (Qabs (v0 - n0) <= Qabs (v0 - b0)
              /\ Qabs (v1 - n1) <= Qabs (v1 - b1)
              /\ Qabs (v2 - n2) <= Qabs (v2 - b2))).
Proof.
  intros Ha. split.
  - apply update_baseline_first.
  - intros b0 b1 b2 Hb.
    eexists _, _, _. split; [apply update_baseline_next, Hb|].
    repeat split; try reflexivity;
      first [ apply convex_between, Ha
            | apply (proj1 (convex_between _ _ _ Ha))
            | apply (proj2 (convex_between _ _ _ Ha))
            | apply convex_closer, Ha ].
Qed.

Lemma update_baseline_convex_witness :
  exists n0 n1 n2 : Q,
    _update_baseline [300; 900; 900]
      (set_baseline (Some [200; 900; 900]) launcher_interp)
    = (Return tt, set_baseline (Some [n0; n1; n2]) launcher_interp)
    /\ n0 == 202 /\ between 200 n0 300.
Proof.
  destruct (update_baseline_convex
              (set_baseline (Some [200; 900; 900]) launcher_interp)
              300 900 900) as [_ H].
  - simpl. lra.
  - destruct (H 200 900 900 eq_refl)
      as (n0 & n1 & n2 & E & (E0 & _) & (B0 & _) & _).
    exists n0, n1, n2. split; [exact E|]. split; [|exact B0].
    rewrite E0. reflexivity.
Defined.

(** C10. What [process] returns does not depend on the baseline nor on the
    [auto_baseline] flag (nor on [alpha]): two interpreters with the same
    sensitivity, polarity and threshold, each with a baseline that is
    absent or holds three values, return the same result on every input,
    and the same results call after call on every series of inputs. *)
Theorem process_independent_of_baseline (s1 s2 : GrayscaleInterpreter.t) :
  same_config s1 s2 -> wf_baseline s1 -> wf_baseline s2 ->
  (forall vals : list Q, fst (process vals s1) = fst (process vals s2))
  /\ (forall inputs : list (list Q),
        fst (process_all inputs s1) = fst (process_all inputs s2)).
Proof.
  intros Hc H1 H2. split.
  - intros vals. now apply process_any_indep.
  - intros inputs. now apply process_all_indep.
Qed.

Lemma process_independent_of_baseline_witness :
  fst (process [200; 900; 900] launcher_interp)
  = fst (process [200; 900; 900] (mk 120 "dark" false 0.5 (Some [1; 2; 3]) 850)).
Proof.
  apply (process_independent_of_baseline launcher_interp
           (mk 120 "dark" false 0.5 (Some [1; 2; 3]) 850)).
  - repeat split.
  - exact I.
  - reflexivity.
Defined.

Lemma init_cases (sens al th : Q) (pol : string) (ab : bool) :
  ((lower pol = "dark"%string \/ lower pol = "light"%string)
   /\ __init__ sens pol ab al th
      = Return (mk sens (lower pol) ab al None th))
  \/ (lower pol <> "dark"%string /\ lower pol <> "light"%string
      /\ __init__ sens pol ab al th
         = Raise (ValueError "polarity must be 'dark' or 'light'")).
Proof.
  unfold __init__. cbv zeta.
  destruct (String.eqb (lower pol) "dark") eqn:Ed.
  - left. apply String.eqb_eq in Ed. auto.
  - destruct (String.eqb (lower pol) "light") eqn:El.
    + left. apply String.eqb_eq in El. auto.
    + right. apply String.eqb_neq in Ed, El. auto.
Qed.

(** C7. The constructor raises the invalid-polarity [ValueError] exactly
    when the lowercased polarity is neither "dark" nor "light", and
    otherwise returns an interpreter holding the lowercased polarity; no
    call of [process] on the constructed interpreter, on any input and
    after any series of calls, raises that error, and on lists of three
    readings [process] raises nothing at all. *)
Theorem init_polarity_error (sens al th : Q) (pol : string) (ab : bool) :
  (__init__ sens pol ab al th
   = Raise (ValueError "polarity must be 'dark' or 'light'")
   <-> lower pol <> "dark"%string /\ lower pol <> "light"%string)
  /\ ((exists self, __init__ sens pol ab al th = Return self)
      <-> lower pol = "dark"%string \/ lower pol = "light"%string)
  /\ (forall self : GrayscaleInterpreter.t,
        __init__ sens pol ab al th = Return self ->
        polarity self = lower pol
        /\ (forall inputs : list (list Q),
              Forall (fun r => r <> Raise (ValueError
                                 "polarity must be 'dark' or 'light'"))
                     (fst (process_all inputs self)))
        /\ (forall ts : list (Q * Q * Q),
              Forall (fun r => exists o, r = Return o)
                     (fst (process_all (readings ts) self)))).
Proof.
  destruct (init_cases sens al th pol ab) as [(Hv & E)|(Hd & Hl & E)];
    rewrite E.
  - split; [|split].
    + split; [discriminate|]. intros [? ?]. destruct Hv; contradiction.
    + split; [intros _; exact Hv | intros _; eauto].
    + intros self [= <-]. simpl. split; [reflexivity|]. split.
      * intros inputs. apply process_all_no_polarity_error.
      * intros ts. apply process_all_returns. exact I.
  - split; [|split].
    + split; [intros _; auto | reflexivity].
    + split; [intros [? ?]; discriminate | intros [?|?]; contradiction].
    + intros self. discriminate.
Qed.

Lemma init_polarity_error_witness :
  (exists self, __init__ 120 "Dark" true 0.02 850 = Return self)
  /\ __init__ 120 "blue" true 0.02 850
     = Raise (ValueError "polarity must be 'dark' or 'light'").
Proof.
  split.
  - apply (proj1 (proj2 (init_polarity_error 120 0.02 850 "Dark" true))).
    left. reflexivity.
  - apply (proj1 (init_polarity_error 120 0.02 850 "blue" true)).
    split; discriminate.
Defined.

(** The launcher's configuration: threshold 850, dark line, sensitivity
    120. *)
Lemma process_launcher_config self L M R :
  sensitivity self = 120 -> thresh self = 850 -> polarity self = "dark"%string ->
  wf_baseline self ->
  fst (process [L; M; R] self) = offset_of 120 850 "dark" L M R.
Proof.
  intros Hs Ht Hp Hwf. destruct (process_wf self L M R Hwf) as (-> & _).
  now rewrite Hs, Ht, Hp.
Qed.

Lemma strength_launcher_config self x :
  thresh self = 850 -> polarity self = "dark"%string ->
  strength self x = Qmax 0 (850 - x).
Proof. unfold strength. now intros -> ->. Qed.

(** C5, as stated, fails: on (200, 900, 900) the returned offset is not
    -1, on rationals and on binary64 numbers alike. *)
Lemma process_200_900_900_not_minus_one :
  exists r : Q,
    fst (process [200; 900; 900] launcher_interp) = Return (Some r)
    /\ ~ r == -1
    /\ exists x : float,
         Binary64.process 120 850 "dark" 200 900 900 = Return (Some x)
         /\ PrimFloat.eqb x (-1) = false.
Proof.
  exists (-650000000000 # 650000000001). split; [|split].
  - vm_compute. reflexivity.
  - intros H. vm_compute in H. discriminate.
  - eexists. split; vm_compute; reflexivity.
Qed.

(** C5, amended. With threshold 850, a dark line and sensitivity 120, on
    (200, 900, 900) the strengths are (650, 0, 0), an edge is detected
    (the contrast is 700, at least 120), and [process] returns the centroid
    -650 / (650 + 1e-9): a value strictly between -1 and -0.999999999998,
    which the clamp leaves as it is.  On binary64 numbers the value is
    -0.99999999999846156. *)
Theorem process_200_900_900 (self : GrayscaleInterpreter.t) :
  sensitivity self = 120 -> thresh self = 850 -> polarity self = "dark"%string ->
  wf_baseline self ->
  (strength self 200 == 650 /\ strength self 900 == 0)
  /\ (contrast 200 900 900 == 700 /\ sensitivity self <= contrast 200 900 900)
  /\ (exists r : Q,
        fst (process [200; 900; 900] self) = Return (Some r)
        /\ r == -650 / (650 + 0.000000001)
        /\ -1 < r < -0.999999999998)
  /\ Binary64.process 120 850 "dark" 200 900 900
     = Return (Some (-0.99999999999846156)%float).
Proof.
  intros Hs Ht Hp Hwf.
  rewrite !(strength_launcher_config self _ Ht Hp), Hs.
  rewrite (process_launcher_config self _ _ _ Hs Ht Hp Hwf).
  split; [|split; [|split]].
  - split; vm_compute; reflexivity.
  - split; [vm_compute; reflexivity|]. vm_compute. discriminate.
  - exists (-650000000000 # 650000000001).
    split; [vm_compute; reflexivity|].
    split; [vm_compute; reflexivity|].
    split; vm_compute; reflexivity.
  - vm_compute. reflexivity.
Qed.

Lemma process_200_900_900_witness :
  exists r : Q,
    fst (process [200; 900; 900] launcher_interp) = Return (Some r)
    /\ -1 < r < -0.999999999998.
Proof.
  destruct (process_200_900_900 launcher_interp)
    as (_ & _ & (r & Hr & _ & Hb) & _);
    [reflexivity | reflexivity | reflexivity | exact I |].
  exists r. split; [exact Hr | exact Hb].
Defined.



(** ** The controller: gains *)

(** C8. The gains are functions of the constructor's arguments:
    Kp = max_angle * response and Kd = Kp * dt * damping, and the previous
    error starts cleared.  For max_angle = 30, response = 1, dt = 0.02 and
    damping = 0.8 this gives Kp = 30 and Kd = 0.48, on rationals and, bit
    for bit, on binary64 numbers. *)
Theorem pd_gains (max_angle dt response damping : Q) :
  let c := PDController.__init__ max_angle dt response damping in
  (PDController.Kp c = max_angle * response
   /\ PDController.Kd c = PDController.Kp c * dt * damping
   /\ PDController.prev_error c = 0 /\ PDController.has_prev c = false)
  /\ (PDController.Kp (PDController.__init__ 30 0.02 1 0.8) == 30
      /\ PDController.Kd (PDController.__init__ 30 0.02 1 0.8) == 0.48)
  /\ Binary64.gains 30 0.02 1 0.8 = (30, 0.48)%float.
Proof.
  cbv zeta. split; [|split].
  - repeat split.
  - split; vm_compute; reflexivity.
  - vm_compute. reflexivity.
Qed.

(** ** Recovery *)

Lemma line_seen_thresh_adc e i :
  exists b : bool, line_seen_thresh (adc_list e i) = Return b.
Proof.
  unfold adc_list. destruct (adc_at e i) as [[L M] R].
  unfold line_seen_thresh. simpl unpack3. cbv iota beta.
  destruct (String.eqb (lower POLARITY) "dark"); eauto.
Qed.

Lemma exit_justified_mono t0 e a b a' b' c c' why :
  (a' <= a)%nat -> (b <= b')%nat -> c <= c' ->
  exit_justified t0 e a b c why -> exit_justified t0 e a' b' c' why.
Proof.
  intros Ha Hb Hc. destruct why; simpl.
  - intros (i & Hi & H). exists i. split; [lia|exact H].
  - intros (i & Hi & H). exists i. split; [lia|exact H].
  - intros H. lra.
Qed.

(** One round of the poll loop. *)
Lemma recover_round_spec t0 w :
  causal (env w) ->
  exists (r : option Exit) (w' : World),
    recover_round t0 w = (Return r, w')
    /\ env w' = env w /\ now w <= now w' /\ (tick w < tick w')%nat
    /\ match r with
       | Some why =>
           log w' = log w
           /\ exit_justified t0 (env w) (tick w) (tick w') (now w') why
       | None =>
           log w' = log w ++ [Sleep RECOVER_DT]
           /\ now w <= t0 + RECOVER_MAX_TIME
           /\ now w + RECOVER_DT <= now w'
       end.
Proof.
  intros Hc.
  pose proof (Hc (tick w)) as H0. pose proof (Hc (S (tick w))) as H1.
  pose proof (Hc (S (S (tick w)))) as H2.
  pose proof (Hc (S (S (S (tick w))))) as H3.
  destruct w as [e t k l]. cbv [env now tick log] in *.
  destruct (line_seen_thresh_adc e (S k)) as [b Eb].
  cbv beta iota zeta delta
    [recover_round bind is_set get call ret lift px_get_grayscale_data
     time sleep env now tick log].
  destruct (is_set_at e k) eqn:Es.
  - eexists _, _. split; [reflexivity|]. cbv [env now tick log].
    rewrite app_nil_r.
    repeat split; try lra; try lia.
    exists k. split; [lia|exact Es].
  - rewrite Eb. destruct b.
    + eexists _, _. split; [reflexivity|]. cbv [env now tick log].
      rewrite !app_nil_r.
      repeat split; try lra; try lia.
      exists (S k). split; [lia|exact Eb].
    + destruct (Qgtb _ RECOVER_MAX_TIME) eqn:Et.
      * eexists _, _. split; [reflexivity|]. cbv [env now tick log].
        rewrite !app_nil_r.
        apply Qgtb_gt in Et.
        repeat split; try lra; try lia.
        simpl. lra.
      * eexists _, _. split; [reflexivity|]. cbv [env now tick log].
        rewrite !app_nil_r.
        apply Qgtb_le in Et.
        unfold RECOVER_MAX_TIME, RECOVER_DT in *.
        repeat split; try lra; try lia.
Qed.

Lemma nat_le_of_Qle (n : nat) (z : Z) :
  inject_Z (Z.of_nat n) <= inject_Z z -> (Z.of_nat n <= z)%Z.
Proof. intros H. rewrite Zle_Qle. exact H. Qed.

(** The poll loop: when [n] sleeps' worth of time has passed since [t0],
    at most [251 - n] further sleeps follow before the loop is left. *)
Lemma recover_loop_spec t0 : forall (fuel n : nat) (w : World),
  causal (env w) ->
  t0 + RECOVER_DT * inject_Z (Z.of_nat n) <= now w ->
  (252 <= n + fuel)%nat -> (1 <= fuel)%nat ->
  exists (why : Exit) (w' : World) (k : nat),
    loop fuel (recover_round t0) w = Some (Return why, w')
    /\ env w' = env w
    /\ log w' = log w ++ repeat (Sleep RECOVER_DT) k
    /\ (k <= 251 - n)%nat
    /\ now w <= now w' /\ (tick w < tick w')%nat
    /\ exit_justified t0 (env w) (tick w) (tick w') (now w') why.
Proof.
  induction fuel as [|fuel IH]; intros n w Hc Hn Hf H1; [lia|].
  simpl loop.
  destruct (recover_round_spec t0 w Hc) as (r & w1 & E & He & Hnow & Htick & Hr).
  rewrite E. destruct r as [why|].
  - destruct Hr as [Hl Hj].
    exists why, w1, 0%nat. simpl repeat. rewrite app_nil_r.
    repeat split; auto; lia.
  - destruct Hr as (Hl & Hmax & Hdt).
    assert (Hn250 : (n <= 250)%nat).
    { assert (H : inject_Z (Z.of_nat n) <= inject_Z 250).
      { unfold RECOVER_DT, RECOVER_MAX_TIME in *.
        change (inject_Z 250) with 250. lra. }
      apply nat_le_of_Qle in H. lia. }
    destruct (IH (S n) w1) as (why & w' & k & El & He' & Hl' & Hk & Hnow' & Ht' & Hj).
    + now rewrite He.
    + rewrite Nat2Z.inj_succ. unfold Z.succ. rewrite inject_Z_plus.
      unfold RECOVER_DT in *. change (inject_Z 1) with 1. lra.
    + lia.
    + lia.
    + exists why, w', (S k). split; [exact El|].
      split; [congruence|].
      split; [rewrite Hl', Hl, <- app_assoc; reflexivity|].
      split; [lia|]. split; [unfold RECOVER_DT in *; lra|].
      split; [lia|].
      rewrite He in Hj.
      eapply exit_justified_mono; [| | |exact Hj]; [lia|lia|lra].
Qed.

Lemma recover_begin_spec w :
  causal (env w) ->
  exists w1 : World,
    recover_begin w = (Return (now w1), w1)
    /\ env w1 = env w /\ now w + 0.15 <= now w1
    /\ tick w1 = (tick w + 5)%nat
    /\ log w1 = log w ++ [Stop; Sleep 0.15; SetDirServoAngle RECOVER_STEER;
                          Backward REV_POWER].
Proof.
  intros Hc.
  pose proof (Hc (tick w)) as H0. pose proof (Hc (S (tick w))) as H1.
  pose proof (Hc (S (S (tick w)))) as H2.
  pose proof (Hc (S (S (S (tick w))))) as H3.
  pose proof (Hc (S (S (S (S (tick w)))))) as H4.
  destruct w as [e t k l]. cbv [env now tick log] in *.
  cbv beta iota zeta delta
    [recover_begin bind get call ret px_stop sleep px_set_dir_servo_angle
     px_backward time env now tick log].
  eexists (Build_World _ _ _ _). split; [reflexivity|].
  cbv [env now tick log].
  rewrite app_nil_r, <- !app_assoc. simpl app.
  repeat split; try lra. lia.
Qed.

Lemma recover_end_spec w :
  causal (env w) ->
  exists w' : World,
    recover_end w = (Return tt, w')
    /\ env w' = env w /\ now w + 0.1 <= now w'
    /\ tick w' = (tick w + 2)%nat
    /\ log w' = log w ++ [Stop; Sleep 0.1].
Proof.
  intros Hc.
  pose proof (Hc (tick w)) as H0. pose proof (Hc (S (tick w))) as H1.
  destruct w as [e t k l]. cbv [env now tick log] in *.
  cbv beta iota zeta delta
    [recover_end bind call ret px_stop sleep env now tick log].
  eexists. split; [reflexivity|]. cbv [env now tick log].
  rewrite <- !app_assoc. simpl app.
  repeat split; try lra. lia.
Qed.

(** The whole maneuver. *)
Lemma recover_spec (w : World) (fuel : nat) :
  causal (env w) -> (252 <= fuel)%nat ->
  exists (t0 : Q) (why : Exit) (w' : World) (k : nat),
    recover_reverse_until_line fuel w = Some (Return (t0, why), w')
    /\ env w' = env w
    /\ (k <= 251)%nat
    /\ log w' = log w ++ [Stop; Sleep 0.15; SetDirServoAngle RECOVER_STEER;
                          Backward REV_POWER]
                      ++ repeat (Sleep RECOVER_DT) k ++ [Stop; Sleep 0.1]
    /\ now w + 0.15 <= t0
    /\ t0 + 0.1 <= now w'
    /\ exit_justified t0 (env w) (tick w) (tick w') (now w' - 0.1) why.
Proof.
  intros Hc Hf. unfold recover_reverse_until_line.
  destruct (recover_begin_spec w Hc) as (w1 & E1 & He1 & Hn1 & Ht1 & Hl1).
  rewrite E1.
  destruct (recover_loop_spec (now w1) fuel 0 w1)
    as (why & w2 & k & E2 & He2 & Hl2 & Hk & Hn2 & Ht2 & Hj);
    [ now rewrite He1
    | change (inject_Z (Z.of_nat 0)) with 0; unfold RECOVER_DT; lra
    | lia | lia |].
  rewrite E2.
  destruct (recover_end_spec w2) as (w3 & E3 & He3 & Hn3 & Ht3 & Hl3);
    [now rewrite He2, He1|].
  rewrite E3.
  exists (now w1), why, w3, k. split; [reflexivity|].
  split; [congruence|]. split; [lia|].
  split; [rewrite Hl3, Hl2, Hl1, <- !app_assoc; reflexivity|].
  split; [exact Hn1|]. split; [lra|].
  rewrite He1 in Hj.
  eapply exit_justified_mono; [| | |exact Hj]; [lia|lia|lra].
Qed.

Lemma quiet_env_causal : causal quiet_env.
Proof. intros k. simpl. lra. Qed.


(** ** The controller thread on a lost line *)

Lemma controller_round_lost (fuel : nat) (offset_bus : Bus.t OffsetMessage)
    (msg : OffsetMessage) (th : Thread) :
  causal (env (world th)) -> (252 <= fuel)%nat ->
  Bus.message offset_bus = Some msg -> offset msg = None ->
  exists (th' : Thread) (k : nat),
    controller_round fuel offset_bus th = Some (Return tt, th')
    /\ (k <= 251)%nat
    /\ log (world th')
       = log (world th)
         ++ [Stop]
         ++ [Stop; Sleep 0.15; SetDirServoAngle RECOVER_STEER;
             Backward REV_POWER]
         ++ repeat (Sleep RECOVER_DT) k ++ [Stop; Sleep 0.1]
         ++ [Sleep CONTROL_DT]
    /\ PDController.prev_error (controller th') = 0
    /\ PDController.has_prev (controller th') = false
    /\ prev_offset th' = 0.
Proof.
  intros Hc Hf Hm Ho. unfold controller_round, Bus.read. simpl fst.
  rewrite Hm, Ho.
  destruct th as [c p w]. cbv [world] in *.
  assert (E1 : exists w1, px_stop w = (Return tt, w1) /\ env w1 = env w
                          /\ log w1 = log w ++ [Stop]).
  { eexists. split; [reflexivity|]. split; reflexivity. }
  destruct E1 as (w1 & E1 & He1 & Hl1). rewrite E1.
  destruct (recover_spec w1 fuel) as (t0 & why & w2 & k & E & _ & Hk & Hl & _);
    [now rewrite He1 | exact Hf |].
  rewrite E.
  eexists (Build_Thread _ _ _), k. split; [reflexivity|].
  cbv [controller prev_offset world]. simpl fst. simpl snd.
  split; [exact Hk|].
  split; [|repeat split].
  cbn [log]. rewrite Hl, Hl1, <- !app_assoc. reflexivity.
Qed.

(** C3. On three readings, [process] returns [None] exactly when the sum
    of the three line strengths is below the tolerance 1e-6 and the
    largest jump between adjacent channels is below the sensitivity.  With
    threshold 850, a dark line and sensitivity 120 this is so on
    (1000, 1000, 1000).  And a round of the controller loop that reads a
    message whose offset is [None] stops the robot, runs the recovery
    maneuver (stop, reverse, poll, stop), clears the controller's previous
    error and the smoothed offset, and goes on. *)
Theorem lost_line_recovery :
  (forall (self : GrayscaleInterpreter.t) (L M R : Q),
     wf_baseline self ->
     (fst (process [L; M; R] self) = Return None
      <-> strength self L + strength self M + strength self R < 0.000001
          /\ contrast L M R < sensitivity self))
  /\ (forall self : GrayscaleInterpreter.t,
        sensitivity self = 120 -> thresh self = 850 ->
        polarity self = "dark"%string -> wf_baseline self ->
        fst (process [1000; 1000; 1000] self) = Return None)
  /\ (forall (fuel : nat) (offset_bus : Bus.t OffsetMessage)
             (msg : OffsetMessage) (th : Thread),
        causal (env (world th)) -> (252 <= fuel)%nat ->
        fst (Bus.read offset_bus) = Return (Some msg) -> offset msg = None ->
        exists (th' : Thread) (k : nat),
          controller_round fuel offset_bus th = Some (Return tt, th')
          /\ (k <= 251)%nat
          /\ log (world th')
             = log (world th)
               ++ [Stop]
               ++ [Stop; Sleep 0.15; SetDirServoAngle RECOVER_STEER;
                   Backward REV_POWER]
               ++ repeat (Sleep RECOVER_DT) k ++ [Stop; Sleep 0.1]
               ++ [Sleep CONTROL_DT]
          /\ PDController.prev_error (controller th') = 0
          /\ PDController.has_prev (controller th') = false
          /\ prev_offset th' = 0).
Proof.
  split; [|split].
  - intros self L M R Hwf.
    destruct (process_wf self L M R Hwf) as (-> & _).
    apply (offset_of_lost (sensitivity self) (thresh self) (polarity self)).
  - intros self Hs Ht Hp Hwf.
    rewrite (process_launcher_config self _ _ _ Hs Ht Hp Hwf).
    vm_compute. reflexivity.
  - intros fuel offset_bus msg th Hc Hf Hm Ho.
    apply (controller_round_lost fuel offset_bus msg th Hc Hf); [|exact Ho].
    unfold Bus.read in Hm. simpl in Hm. congruence.
Qed.

Lemma lost_line_recovery_witness :
  fst (process [1000; 1000; 1000] launcher_interp) = Return None
  /\ exists (th' : Thread) (k : nat),
       controller_round 252 (Bus.mk (Some (Build_OffsetMessage 0 None)))
         {| controller := PDController.__init__ MAX_ANGLE CONTROL_DT
                            RESPONSE DAMPING;
            prev_offset := 0.3;
            world := quiet_world |}
       = Some (Return tt, th')
       /\ (k <= 251)%nat /\ prev_offset th' = 0.
Proof.
  destruct lost_line_recovery as (_ & H2 & H3). split.
  - apply H2; [reflexivity | reflexivity | reflexivity | exact I].
  - destruct (H3 252%nat (Bus.mk (Some (Build_OffsetMessage 0 None)))
                (Build_OffsetMessage 0 None)
                {| controller := PDController.__init__ MAX_ANGLE CONTROL_DT
                                   RESPONSE DAMPING;
                   prev_offset := 0.3;
                   world := quiet_world |})
      as (th' & k & E & Hk & _ & _ & _ & Hp).
    + intros i. vm_compute. discriminate.
    + lia.
    + reflexivity.
    + reflexivity.
    + exists th', k. repeat split; assumption.
Defined.

(** ** Binary64: the clamp *)

(** On binary64 numbers too, an offset returned by [process] is never
    above 1 nor below -1, whatever the readings and the configuration
    (for a number, that is membership of the interval). *)
Lemma binary64_offset_clamped (sens th : float) (pol : string)
    (L M R r : float) :
  Binary64.process sens th pol L M R = Return (Some r) ->
  PrimFloat.ltb 1 r = false /\ PrimFloat.ltb r (-1) = false.
Proof.
  unfold Binary64.process.
  destruct (String.eqb pol "dark"); cbv zeta beta iota.
  all: destruct (_ && _); [discriminate|].
  all: destruct (_ && _); [intros [= <-]; split; vm_compute; reflexivity|].
  all: destruct (Binary64.fdiv _ _) as [e|c]; [discriminate|].
  all: intros [= <-].
  all: destruct (PrimFloat.ltb 1 c) eqn:E1;
    [ split; vm_compute; reflexivity |].
  all: destruct (PrimFloat.ltb c (-1)) eqn:E2;
    [ split; vm_compute; reflexivity | split; assumption ].
Qed.

(** ** Binary64: rounding in the baseline

    The statements on the baseline above are about the exact value of
    (1 - alpha) * old + alpha * reading.  Each binary64 operation rounds:
    with alpha = 0.02 and old = reading = 7 the stored value is one unit
    in the last place below 7. *)
Remark binary64_baseline_rounding :
  Binary64.update 0.02 7 7 = 6.999999999999999%float
  /\ PrimFloat.ltb (Binary64.update 0.02 7 7) 7 = true
  /\ Binary64.update 0.02 200 300 = 202%float.
Proof. repeat split; vm_compute; reflexivity. Qed.

(* ================================================================== *)
(** * Further properties of the code *)

(** ** The interpreter: the offset *)

Section OffsetExact.
Variables (sens th : Q) (pol : string) (L M R : Q).

Let s (x : Q) : Q :=
  if String.eqb pol "dark" then py_max 0 (th - x) else py_max 0 (x - th).

Let centroid : Q :=
  (-1 * s L + 0 * s M + 1 * s R) / (s L + s M + s R + 0.000000001).

Lemma centroid_inside : -1 < centroid < 1.
Proof.
  assert (0 <= s L) by apply channel_nonneg.
  assert (0 <= s M) by apply channel_nonneg.
  assert (0 <= s R) by apply channel_nonneg.
  unfold centroid. split.
  - apply Qlt_shift_div_l; lra.
  - apply Qlt_shift_div_r; lra.
Qed.

(** The division is defined and the clamp changes nothing. *)
Lemma offset_of_cases :
  offset_of sens th pol L M R =
  if Qltb (s L + s M + s R) 0.000001
     && negb (Qgeb (py_max (py_abs (L - M)) (py_abs (M - R))) sens)
  then Return None
  else if negb (Qgeb (py_max (py_abs (L - M)) (py_abs (M - R))) sens)
          && Qltb (py_max3 (s L) (s M) (s R)) sens
  then Return (Some 0)
  else Return (Some centroid).
Proof.
  unfold offset_of. cbv zeta beta. fold (s L) (s M) (s R).
  destruct (_ && _); [reflexivity|]. destruct (_ && _); [reflexivity|].
  assert (E : py_div (-1 * s L + 0 * s M + 1 * s R)
                     (s L + s M + s R + 0.000000001) = Return centroid)
    by apply centroid_defined.
  rewrite E.
  destruct centroid_inside as [Hlo Hhi].
  rewrite (proj2 (Qgtb_le centroid 1)) by lra.
  rewrite (proj2 (Qltb_ge centroid (-1))) by lra.
  reflexivity.
Qed.

Lemma offset_of_inside r :
  offset_of sens th pol L M R = Return (Some r) -> -1 < r < 1.
Proof.
  rewrite offset_of_cases.
  destruct (_ && _); [discriminate|].
  destruct (_ && _); intros [= <-]; [lra | apply centroid_inside].
Qed.

End OffsetExact.

(** Turns a boolean comparison in a hypothesis into the order it
    decides. *)
Ltac Qprop H :=
  first [ apply Qltb_lt in H | apply Qltb_ge in H
        | apply Qgeb_ge in H | apply Qgeb_lt in H
        | apply Qgtb_gt in H | apply Qgtb_le in H ].

Lemma strength_code self x :
  (if String.eqb (polarity self) "dark"
   then py_max 0 (thresh self - x) else py_max 0 (x - thresh self))
  == strength self x.
Proof.
  unfold strength. destruct (String.eqb (polarity self) "dark");
    apply py_max_Qmax.
Qed.

Lemma py_max3_Qmax a b c a' b' c' :
  a == a' -> b == b' -> c == c' ->
  py_max3 a b c == Qmax (Qmax a' b') c'.
Proof.
  intros Ha Hb Hc. unfold py_max3. rewrite !py_max_Qmax, Ha, Hb, Hc.
  reflexivity.
Qed.

Lemma contrast_code L M R :
  py_max (py_abs (L - M)) (py_abs (M - R)) == contrast L M R.
Proof. unfold contrast, py_abs. apply py_max_Qmax. Qed.

(** The arithmetic of [process] computes the offset of the
    specification. *)
Lemma offset_of_meets_spec self L M R :
  exists o : option Q,
    offset_of (sensitivity self) (thresh self) (polarity self) L M R = Return o
    /\ offset_spec self L M R o.
Proof.
  pose proof (offset_of_cases (sensitivity self) (thresh self) (polarity self)
                L M R) as E.
  cbv zeta beta in E. rewrite E. clear E.
  pose proof (strength_code self L) as HL.
  pose proof (strength_code self M) as HM.
  pose proof (strength_code self R) as HR.
  pose proof (contrast_code L M R) as HC.
  pose proof (py_max3_Qmax _ _ _ _ _ _ HL HM HR) as HT.
  set (sL := if String.eqb (polarity self) "dark"
             then py_max 0 (thresh self - L) else py_max 0 (L - thresh self)) in *.
  set (sM := if String.eqb (polarity self) "dark"
             then py_max 0 (thresh self - M) else py_max 0 (M - thresh self)) in *.
  set (sR := if String.eqb (polarity self) "dark"
             then py_max 0 (thresh self - R) else py_max 0 (R - thresh self)) in *.
  set (c := py_max (py_abs (L - M)) (py_abs (M - R))) in *.
  set (top := py_max3 sL sM sR) in *.
  destruct (Qltb (sL + sM + sR) 0.000001) eqn:E1;
    destruct (Qgeb c (sensitivity self)) eqn:E2;
    destruct (Qltb top (sensitivity self)) eqn:E3; simpl;
    Qprop E1; Qprop E2; Qprop E3;
    rewrite HL, HM, HR in E1; rewrite HC in E2; rewrite HT in E3;
    eexists; (split; [reflexivity|]); unfold offset_spec; cbv zeta.
  all: try (split; assumption).
  all: split; [intros [? ?]; lra|].
  all: try (left; split; [split; assumption | reflexivity]).
  all: right; (split; [intros [? ?]; lra|]).
  all: rewrite HL, HM, HR; unfold Qdiv; ring.
Qed.

Lemma contrast_mirror L M R : contrast R M L == contrast L M R.
Proof.
  unfold contrast.
  rewrite (Qabs_Qminus R M), (Qabs_Qminus M L). apply Q.max_comm.
Qed.

Lemma Qmax3_bounds a b c :
  a <= Qmax (Qmax a b) c /\ b <= Qmax (Qmax a b) c /\ c <= Qmax (Qmax a b) c.
Proof.
  pose proof (Q.le_max_l a b). pose proof (Q.le_max_r a b).
  pose proof (Q.le_max_l (Qmax a b) c). pose proof (Q.le_max_r (Qmax a b) c).
  repeat split; lra.
Qed.

Lemma Qmax3_mirror a b c : Qmax (Qmax c b) a == Qmax (Qmax a b) c.
Proof.
  destruct (Qmax3_bounds a b c) as (Ha & Hb & Hc).
  destruct (Qmax3_bounds c b a) as (Hc' & Hb' & Ha').
  apply Qle_antisym; repeat apply Q.max_lub; assumption.
Qed.

Lemma offset_spec_mirror self L M R o :
  offset_spec self L M R o -> offset_spec self R M L (mirrored o).
Proof.
  unfold offset_spec. cbv zeta.
  assert (Ht : strength self R + strength self M + strength self L
               == strength self L + strength self M + strength self R) by ring.
  destruct o as [r|]; simpl mirrored; cbv iota;
    rewrite Ht, (contrast_mirror L M R).
  - rewrite (Qmax3_mirror (strength self L) (strength self M)
               (strength self R)).
    intros [Hn [[Hc Hr]|[Hc Hr]]]; (split; [exact Hn|]).
    + left. split; [exact Hc|]. rewrite Hr. reflexivity.
    + right. split; [exact Hc|]. rewrite Hr. unfold Qdiv. ring.
  - tauto.
Qed.

Lemma offset_spec_unique self L M R o1 o2 :
  offset_spec self L M R o1 -> offset_spec self L M R o2 -> same_offset o1 o2.
Proof.
  unfold offset_spec. cbv zeta.
  destruct o1 as [r1|], o2 as [r2|]; simpl; try tauto.
  intros [_ [[C1 E1]|[C1 E1]]] [_ [[C2 E2]|[C2 E2]]]; try tauto.
  - rewrite E1, E2. reflexivity.
  - rewrite E1, E2. reflexivity.
Qed.

(** ** The interpreter: further statements *)

(** Exact arithmetic.  A number returned by [process] is strictly
    between -1 and 1: the
    small constant added to the divisor keeps the centroid away from the
    bounds, so the two clamping statements never change the value. *)
Theorem process_offset_strictly_inside (self self' : GrayscaleInterpreter.t)
    (vals : list Q) (r : Q) :
  process vals self = (Return (Some r), self') -> -1 < r < 1.
Proof.
  rewrite process_unpack.
  destruct (unpack3 vals) as [e|[[L M] R]]; [discriminate|].
  rewrite process_eq.
  destruct ((if auto_baseline self then _update_baseline [L; M; R] else ret tt)
              self) as [[e|[]] self1]; [discriminate|].
  intros [= H _]. exact (offset_of_inside _ _ _ _ _ _ _ H).
Qed.

Lemma process_offset_strictly_inside_witness :
  -1 < (-650000000000 # 650000000001) < 1.
Proof.
  apply (process_offset_strictly_inside launcher_interp
           (set_baseline (Some [200; 900; 900]) launcher_interp)
           [200; 900; 900]).
  vm_compute. reflexivity.
Defined.

(** X2. On three readings and a baseline that is absent or has three
    entries, [process] returns the offset of the specification: [None]
    when the total strength is below 1e-6 with no edge, 0 when there is no
    edge and every strength is below the sensitivity, and otherwise
    (strength R - strength L) / (total + 1e-9). *)
Theorem process_meets_spec (self : GrayscaleInterpreter.t) (L M R : Q) :
  wf_baseline self ->
  exists o : option Q,
    fst (process [L; M; R] self) = Return o /\ offset_spec self L M R o.
Proof.
  intros Hwf. destruct (process_wf self L M R Hwf) as (-> & _).
  apply offset_of_meets_spec.
Qed.

Lemma process_meets_spec_witness :
  exists o : option Q,
    fst (process [200; 900; 900] launcher_interp) = Return o
    /\ offset_spec launcher_interp 200 900 900 o.
Proof. apply (process_meets_spec launcher_interp 200 900 900). exact I. Defined.

(** Exact arithmetic.  Mirroring the scene mirrors the offset: on the
    readings in reverse
    order [process] returns [None] where it returned [None], and the
    opposite number where it returned a number. *)
Theorem process_mirror (self : GrayscaleInterpreter.t) (L M R : Q) :
  wf_baseline self ->
  exists o o' : option Q,
    fst (process [L; M; R] self) = Return o
    /\ fst (process [R; M; L] self) = Return o'
    /\ same_offset o' (mirrored o).
Proof.
  intros Hwf.
  destruct (process_wf self L M R Hwf) as (-> & _).
  destruct (process_wf self R M L Hwf) as (-> & _).
  destruct (offset_of_meets_spec self L M R) as (o & E & S).
  destruct (offset_of_meets_spec self R M L) as (o' & E' & S').
  exists o, o'. split; [exact E|]. split; [exact E'|].
  apply (offset_spec_unique self R M L); [exact S'|].
  apply offset_spec_mirror, S.
Qed.

Lemma process_mirror_witness :
  exists o o' : option Q,
    fst (process [200; 900; 900] launcher_interp) = Return o
    /\ fst (process [900; 900; 200] launcher_interp) = Return o'
    /\ same_offset o' (mirrored o).
Proof. apply (process_mirror launcher_interp 200 900 900). exact I. Defined.

(** X4. A list of readings whose length is not three makes [process]
    raise [ValueError] before anything else happens: the interpreter,
    baseline included, is left as it was. *)
Theorem process_bad_length (self : GrayscaleInterpreter.t) (vals : list Q) :
  length vals <> 3%nat ->
  exists msg : string, process vals self = (Raise (ValueError msg), self).
Proof.
  intros Hlen. rewrite process_unpack.
  destruct vals as [|L [|M [|R [|x vals]]]]; simpl unpack3; cbv iota beta;
    try (eexists; reflexivity).
  contradiction Hlen. reflexivity.
Qed.

Lemma process_bad_length_witness :
  exists msg : string,
    process [] launcher_interp = (Raise (ValueError msg), launcher_interp).
Proof. apply (process_bad_length launcher_interp []). discriminate. Defined.

(** X5. [process] never changes the configuration of the interpreter
    (sensitivity, polarity, threshold, alpha, auto_baseline), whatever the
    input and whether it returns or raises; a baseline that is absent or
    has three entries stays so; and with [auto_baseline] off the
    interpreter is left exactly as it was. *)
Theorem process_frame (self : GrayscaleInterpreter.t) (vals : list Q) :
  (sensitivity (snd (process vals self)) = sensitivity self
   /\ polarity (snd (process vals self)) = polarity self
   /\ thresh (snd (process vals self)) = thresh self
   /\ alpha (snd (process vals self)) = alpha self
   /\ auto_baseline (snd (process vals self)) = auto_baseline self)
  /\ (wf_baseline self -> wf_baseline (snd (process vals self)))
  /\ (auto_baseline self = false -> snd (process vals self) = self).
Proof.
  split; [|split].
  - rewrite process_unpack.
    destruct (unpack3 vals) as [e|[[L M] R]]; [simpl; tauto|].
    rewrite process_eq.
    pose proof (update_baseline_fields [L; M; R] self) as F. cbv zeta in F.
    destruct (auto_baseline self) eqn:Ea.
    + destruct (_update_baseline [L; M; R] self) as [[e|[]] self1];
        simpl in *; tauto.
    + simpl. rewrite Ea. tauto.
  - intros Hwf. apply (process_any self vals Hwf).
  - intros Ha. rewrite process_unpack.
    destruct (unpack3 vals) as [e|[[L M] R]]; [reflexivity|].
    rewrite process_eq, Ha. reflexivity.
Qed.

(** ** The baseline *)

(** X6. [_update_baseline] checks no lengths.  With a three-entry baseline
    and a single reading it updates channel 0 and then raises
    [IndexError], leaving the baseline half updated; and a first call
    stores whatever list it is given, so that after a first list shorter
    than three every later call on three readings raises [IndexError]. *)
Theorem update_baseline_short :
  (forall (self : GrayscaleInterpreter.t) (b0 b1 b2 v0 : Q),
     baseline self = Some [b0; b1; b2] ->
     _update_baseline [v0] self
     = (Raise IndexError,
        set_baseline
          (Some [(1 - alpha self) * b0 + alpha self * v0; b1; b2]) self))
  /\ (forall (self : GrayscaleInterpreter.t) (v : list Q) (L M R : Q),
        baseline self = None -> (length v < 3)%nat ->
        _update_baseline v self = (Return tt, set_baseline (Some v) self)
        /\ fst (_update_baseline [L; M; R] (snd (_update_baseline v self)))
           = Raise IndexError).
Proof.
  split.
  - intros self b0 b1 b2 v0 Hb. unfold _update_baseline. rewrite Hb.
    reflexivity.
  - intros self v L M R Hb Hlen.
    rewrite (update_baseline_first v self Hb). split; [reflexivity|].
    destruct v as [|a [|b [|c v]]]; simpl in Hlen; try lia; reflexivity.
Qed.

Lemma update_baseline_short_witness :
  fst (_update_baseline [1; 2; 3]
         (snd (_update_baseline [5] launcher_interp)))
  = Raise IndexError.
Proof.
  destruct update_baseline_short as [_ H].
  apply (H launcher_interp [5] 1 2 3); [reflexivity | simpl; lia].
Defined.

Lemma settle_alpha n v self : alpha (settle n v self) = alpha self.
Proof.
  induction n as [|n IH]; [reflexivity|]. simpl.
  destruct (update_baseline_fields v (settle n v self)) as (_ & _ & _ & Ha & _).
  fold (settle n v self). congruence.
Qed.

Lemma ema_step a n v P b :
  n - v == P * (b - v) ->
  (1 - a) * n + a * v - v == (1 - a) * P * (b - v).
Proof.
  intros H.
  assert (E : (1 - a) * n + a * v - v == (1 - a) * (n - v)) by ring.
  rewrite E, H. ring.
Qed.

(** X7. The baseline is an exponential moving average: after [n] calls of
    [_update_baseline] on the same three readings, the distance of each
    baseline value to its reading is (1 - alpha)^n times what it was. *)
Theorem baseline_settles (n : nat) (self : GrayscaleInterpreter.t)
    (b0 b1 b2 v0 v1 v2 : Q) :
  baseline self = Some [b0; b1; b2] ->
  exists n0 n1 n2 : Q,
    baseline (settle n [v0; v1; v2] self) = Some [n0; n1; n2]
    /\ n0 - v0 == Qpow (1 - alpha self) n * (b0 - v0)
    /\ n1 - v1 == Qpow (1 - alpha self) n * (b1 - v1)
    /\ n2 - v2 == Qpow (1 - alpha self) n * (b2 - v2).
Proof.
  intros Hb. induction n as [|n IH].
  - exists b0, b1, b2. simpl. split; [exact Hb|]. repeat split; ring.
  - destruct IH as (n0 & n1 & n2 & E & H0 & H1 & H2).
    simpl settle. fold (settle n [v0; v1; v2] self).
    rewrite (update_baseline_next _ _ _ _ _ _ _ E). simpl snd.
    rewrite settle_alpha. eexists _, _, _. split; [reflexivity|].
    simpl Qpow. repeat split; apply ema_step; assumption.
Qed.

Lemma baseline_settles_witness :
  exists n0 n1 n2 : Q,
    baseline (settle 2 [300; 900; 900]
                (set_baseline (Some [200; 900; 900]) launcher_interp))
    = Some [n0; n1; n2]
    /\ n0 - 300 == Qpow (1 - 0.02) 2 * (200 - 300).
Proof.
  destruct (baseline_settles 2
              (set_baseline (Some [200; 900; 900]) launcher_interp)
              200 900 900 300 900 900 eq_refl)
    as (n0 & n1 & n2 & E & H0 & _).
  exists n0, n1, n2. split; [exact E | exact H0].
Defined.

(** ** The interpreter against the recovery's test *)

Lemma strength_lower_bound self x :
  polarity self = "dark"%string -> thresh self - x <= strength self x.
Proof.
  intros Hp. unfold strength. rewrite Hp. simpl. apply Q.le_max_r.
Qed.

Lemma strength_nonneg self x : 0 <= strength self x.
Proof.
  unfold strength. destruct (String.eqb (polarity self) "dark");
    apply Q.le_max_l.
Qed.

Lemma strength_zero self x :
  polarity self = "dark"%string -> thresh self <= x -> strength self x == 0.
Proof.
  intros Hp Hx. unfold strength. rewrite Hp. simpl. apply Q.max_l. lra.
Qed.

Lemma line_seen_thresh_dark L M R :
  line_seen_thresh [L; M; R]
  = Return (Qltb L THRESH || Qltb M THRESH || Qltb R THRESH).
Proof. reflexivity. Qed.

(** X8. How the interpreter's "lost" and the recovery's "line seen" fit
    together, for threshold 850, a dark line and sensitivity 120.  When
    [line_seen_thresh] sees no line (no channel below 850) and there is
    no edge, [process] reports the line lost.  When [process] reports it
    lost, every channel reads more than 850 - 1e-6.  The two tests are not
    complementary: on (849.9999999, 850, 850) [process] reports the line
    lost although [line_seen_thresh] sees it. *)
Theorem lost_versus_seen (self : GrayscaleInterpreter.t) (L M R : Q) :
  sensitivity self = 120 -> thresh self = 850 ->
  polarity self = "dark"%string -> wf_baseline self ->
  (line_seen_thresh [L; M; R] = Return false -> contrast L M R < 120 ->
   fst (process [L; M; R] self) = Return None)
  /\ (fst (process [L; M; R] self) = Return None ->
      850 - 0.000001 < L /\ 850 - 0.000001 < M /\ 850 - 0.000001 < R)
  /\ (fst (process [849.9999999; 850; 850] self) = Return None
      /\ line_seen_thresh [849.9999999; 850; 850] = Return true).
Proof.
  intros Hs Ht Hp Hwf.
  destruct (process_wf self L M R Hwf) as (EL & _).
  assert (Hlost :
            offset_of (sensitivity self) (thresh self) (polarity self) L M R
            = Return None
            <-> strength self L + strength self M + strength self R < 0.000001
                /\ contrast L M R < sensitivity self)
    by exact (offset_of_lost (sensitivity self) (thresh self) (polarity self)
                L M R).
  split; [|split].
  - rewrite line_seen_thresh_dark. intros [= Hseen] Hc.
    apply orb_false_elim in Hseen. destruct Hseen as [Hseen HR].
    apply orb_false_elim in Hseen. destruct Hseen as [HL HM].
    Qprop HL; Qprop HM; Qprop HR. unfold THRESH in *.
    rewrite EL. apply Hlost. rewrite Hs. split; [|exact Hc].
    assert (ZL : strength self L == 0)
      by (apply strength_zero; [assumption | rewrite Ht; assumption]).
    assert (ZM : strength self M == 0)
      by (apply strength_zero; [assumption | rewrite Ht; assumption]).
    assert (ZR : strength self R == 0)
      by (apply strength_zero; [assumption | rewrite Ht; assumption]).
    lra.
  - rewrite EL. intros H. apply Hlost in H. destruct H as [Htot _].
    pose proof (strength_lower_bound self L Hp).
    pose proof (strength_lower_bound self M Hp).
    pose proof (strength_lower_bound self R Hp).
    pose proof (strength_nonneg self L). pose proof (strength_nonneg self M).
    pose proof (strength_nonneg self R). rewrite Ht in *.
    repeat split; lra.
  - split; [|vm_compute; reflexivity].
    rewrite (process_launcher_config self _ _ _ Hs Ht Hp Hwf).
    vm_compute. reflexivity.
Qed.

Lemma lost_versus_seen_witness :
  fst (process [849.9999999; 850; 850] launcher_interp) = Return None
  /\ line_seen_thresh [849.9999999; 850; 850] = Return true.
Proof.
  destruct (lost_versus_seen launcher_interp 1000 1000 1000)
    as (_ & _ & H); [reflexivity | reflexivity | reflexivity | exact I |].
  exact H.
Defined.

(** ** The controller *)

Lemma clamp_bounds m x : 0 <= m -> - m <= clamp m x <= m.
Proof.
  intros Hm. unfold clamp. split.
  - apply Q.le_max_l.
  - apply Q.max_lub; [lra | apply Q.le_min_l].
Qed.

(** The two clamping statements of [control] compute [clamp]. *)
Lemma clamp_code m x :
  0 <= m ->
  (if Qltb (if Qgtb x m then m else x) (- m)
   then - m else (if Qgtb x m then m else x)) == clamp m x.
Proof.
  intros Hm. unfold clamp.
  destruct (Qgtb x m) eqn:E1; Qprop E1.
  - rewrite (proj2 (Qltb_ge m (- m))) by lra.
    rewrite (Q.min_l m x) by lra. rewrite (Q.max_r (- m) m) by lra.
    reflexivity.
  - rewrite (Q.min_r m x) by lra.
    destruct (Qltb x (- m)) eqn:E2; Qprop E2.
    + rewrite (Q.max_l (- m) x) by lra. reflexivity.
    + rewrite (Q.max_r (- m) x) by lra. reflexivity.
Qed.

Lemma clamp_compat m x y : x == y -> clamp m x == clamp m y.
Proof. intros H. unfold clamp. rewrite H. reflexivity. Qed.

(** The rate of change of the error that [control] uses. *)
Lemma control_returns (c : PDController.t) (w : World) (e : Q) :
  (PDController.has_prev c = true -> ~ PDController.dt c == 0) ->
  let de := if PDController.has_prev c
            then (e - PDController.prev_error c) / PDController.dt c else 0 in
  let x := PDController.Kp c * e + PDController.Kd c * de in
  let m := PDController.max_angle c in
  let a := if Qltb (if Qgtb x m then m else x) (- m)
           then - m else (if Qgtb x m then m else x) in
  PDController.control (Some e) (c, w)
  = (Return (Some a),
     (PDController.mk m (PDController.dt c) (PDController.Kp c)
        (PDController.Kd c) e true,
      snd (px_set_dir_servo_angle a w))).
Proof.
  intros Hdt. cbv zeta.
  unfold PDController.control, bind, PDController.on_self, PDController.on_px,
    get, lift, ret, PDController.set_prev, py_div. cbn [fst snd].
  destruct (PDController.has_prev c) eqn:Hp; cbn [negb].
  - destruct (Qeq_bool (PDController.dt c) 0) eqn:Ez.
    + apply Qeq_bool_iff in Ez. destruct (Hdt eq_refl Ez).
    + reflexivity.
  - reflexivity.
Qed.

Lemma control_raises (c : PDController.t) (w : World) (e : Q) :
  PDController.has_prev c = true -> PDController.dt c == 0 ->
  PDController.control (Some e) (c, w) = (Raise ZeroDivisionError, (c, w)).
Proof.
  intros Hp Hz.
  unfold PDController.control, bind, PDController.on_self, PDController.on_px,
    get, lift, ret, PDController.set_prev, py_div. cbn [fst snd].
  rewrite Hp. cbn [negb]. apply Qeq_bool_iff in Hz. rewrite Hz. reflexivity.
Qed.

(** X9. With a non-negative limit [max_angle], and a non-zero [dt] once a
    previous error is stored, [control] on an offset [e] returns
    Kp * e + Kd * de clamped to [[-max_angle, max_angle]], where [de] is 0
    on the first call and (e - prev_error) / dt afterwards; it sends
    exactly one steering command, with the returned angle, stores [e] as
    the previous error, and leaves the gains and limits as they were. *)
Theorem control_law (c : PDController.t) (w : World) (e : Q) :
  0 <= PDController.max_angle c ->
  (PDController.has_prev c = true -> ~ PDController.dt c == 0) ->
  exists (a : Q) (w' : World),
    PDController.control (Some e) (c, w)
    = (Return (Some a),
       (PDController.mk (PDController.max_angle c) (PDController.dt c)
          (PDController.Kp c) (PDController.Kd c) e true, w'))
    /\ a == clamp (PDController.max_angle c)
              (PDController.Kp c * e
               + PDController.Kd c
                 * (if PDController.has_prev c
                    then (e - PDController.prev_error c) / PDController.dt c
                    else 0))
    /\ - PDController.max_angle c <= a <= PDController.max_angle c
    /\ log w' = log w ++ [SetDirServoAngle a]
    /\ env w' = env w.
Proof.
  intros Hm Hdt. pose proof (control_returns c w e Hdt) as E. cbv zeta in E.
  eexists _, _. split; [exact E|].
  split; [apply clamp_code, Hm|].
  split; [rewrite (clamp_code _ _ Hm); apply clamp_bounds, Hm|].
  split; reflexivity.
Qed.

Lemma control_law_witness :
  exists (a : Q) (w' : World),
    PDController.control (Some 0.5)
      (PDController.__init__ MAX_ANGLE CONTROL_DT RESPONSE DAMPING, quiet_world)
    = (Return (Some a),
       (PDController.mk 30 CONTROL_DT (30 * 1) (30 * 1 * CONTROL_DT * DAMPING)
          0.5 true, w'))
    /\ - (30) <= a <= 30.
Proof.
  destruct (control_law
              (PDController.__init__ MAX_ANGLE CONTROL_DT RESPONSE DAMPING)
              quiet_world 0.5) as (a & w' & E & _ & Hb & _).
  - vm_compute. discriminate.
  - discriminate.
  - exists a, w'. split; [exact E | exact Hb].
Defined.

(** X10. [control] raises nothing but [ZeroDivisionError], and that
    exactly when an offset is given, a previous error is stored and [dt]
    is zero; the controller is then left unchanged and no command is sent.
    The first call after construction or [reset] never divides.  On
    [None], [control] returns [None], changes nothing and sends
    nothing. *)
Theorem control_errors (c : PDController.t) (w : World) :
  PDController.control None (c, w) = (Return None, (c, w))
  /\ (forall e : Q,
        (exists (x : exn) (s : PDController.t * World),
           PDController.control (Some e) (c, w) = (Raise x, s))
        <-> PDController.has_prev c = true /\ PDController.dt c == 0)
  /\ (forall (e : Q) (x : exn) (s : PDController.t * World),
        PDController.control (Some e) (c, w) = (Raise x, s) ->
        x = ZeroDivisionError /\ s = (c, w)).
Proof.
  split; [reflexivity|].
  assert (Hcase : forall e,
             (PDController.has_prev c = true /\ PDController.dt c == 0
              /\ PDController.control (Some e) (c, w)
                 = (Raise ZeroDivisionError, (c, w)))
             \/ (exists r s, PDController.control (Some e) (c, w)
                             = (Return r, s)
                 /\ ~ (PDController.has_prev c = true
                       /\ PDController.dt c == 0))).
  { intros e. destruct (PDController.has_prev c) eqn:Hp.
    - destruct (Qeq_dec (PDController.dt c) 0) as [Hz|Hz].
      + left. split; [reflexivity|]. split; [exact Hz|].
        apply control_raises; assumption.
      + right. pose proof (control_returns c w e) as E. cbv zeta in E.
        rewrite Hp in E. eexists _, _. split; [apply E; intros _; exact Hz|].
        tauto.
    - right. pose proof (control_returns c w e) as E. cbv zeta in E.
      rewrite Hp in E. eexists _, _.
      split; [apply E; discriminate | intros [? _]; discriminate]. }
  split.
  - intros e. destruct (Hcase e) as [(Hp & Hz & E)|(r & s & E & Hn)].
    + split; [tauto | intros _; eauto].
    + split; [intros (x & s' & E'); congruence | tauto].
  - intros e x s E. destruct (Hcase e) as [(Hp & Hz & E')|(r & s' & E' & _)].
    + rewrite E' in E. injection E as <- <-. auto.
    + congruence.
Qed.

Lemma control_errors_witness :
  PDController.control (Some 0.5)
    (PDController.mk 30 0 30 0 0.25 true, quiet_world)
  = (Raise ZeroDivisionError,
     (PDController.mk 30 0 30 0 0.25 true, quiet_world)).
Proof.
  destruct (control_errors (PDController.mk 30 0 30 0 0.25 true) quiet_world)
    as (_ & H1 & H2).
  destruct (proj2 (H1 0.5)) as (x & s & E).
  - split; reflexivity.
  - destruct (H2 0.5 x s E) as [-> ->]. exact E.
Defined.

Lemma derivative_term Kp dt damping e p :
  ~ dt == 0 ->
  Kp * e + Kp * dt * damping * ((e - p) / dt)
  == Kp * (e + damping * (e - p)).
Proof. intros Hdt. field. exact Hdt. Qed.

(** Exact arithmetic.  The constructor derives Kd = Kp * dt * damping,
    and [control]
    and [reset] keep the gains; for such gains and a non-zero [dt] the
    steering law does not depend on [dt]: once a previous error [p] is
    stored, the angle is Kp * (e + damping * (e - p)), clamped. *)
Theorem control_independent_of_dt (c : PDController.t) (w : World)
    (e damping : Q) :
  derived_gains c damping ->
  0 <= PDController.max_angle c -> ~ PDController.dt c == 0 ->
  PDController.has_prev c = true ->
  exists (a : Q) (c' : PDController.t) (w' : World),
    PDController.control (Some e) (c, w) = (Return (Some a), (c', w'))
    /\ a == clamp (PDController.max_angle c)
              (PDController.Kp c
               * (e + damping * (e - PDController.prev_error c)))
    /\ derived_gains c' damping
    /\ derived_gains (snd (PDController.reset c')) damping.
Proof.
  intros Hg Hm Hdt Hp.
  pose proof (control_returns c w e (fun _ => Hdt)) as E. cbv zeta in E.
  rewrite Hp in E. eexists _, _, _. split; [exact E|].
  split; [|split; exact Hg].
  rewrite (clamp_code _ _ Hm). apply clamp_compat.
  unfold derived_gains in Hg. rewrite Hg. apply derivative_term, Hdt.
Qed.

Lemma control_independent_of_dt_witness :
  exists (a : Q) (c' : PDController.t) (w' : World),
    PDController.control (Some 0.5)
      (PDController.mk 30 0.02 30 0.48 0.25 true, quiet_world)
    = (Return (Some a), (c', w'))
    /\ a == clamp 30 (30 * (0.5 + 0.8 * (0.5 - 0.25))).
Proof.
  destruct (control_independent_of_dt
              (PDController.mk 30 0.02 30 0.48 0.25 true) quiet_world 0.5 0.8)
    as (a & c' & w' & E & Ha & _).
  - vm_compute. reflexivity.
  - vm_compute. discriminate.
  - vm_compute. discriminate.
  - reflexivity.
  - exists a, c', w'. split; [exact E | exact Ha].
Defined.

(** X12. After [reset], whatever was stored before and whatever [dt] is,
    the next [control] is purely proportional: it returns Kp * e clamped
    to the limit, with no derivative term and without dividing. *)
Theorem control_after_reset (c : PDController.t) (w : World) (e : Q) :
  0 <= PDController.max_angle c ->
  exists (a : Q) (c' : PDController.t) (w' : World),
    PDController.control (Some e) (snd (PDController.reset c), w)
    = (Return (Some a), (c', w'))
    /\ a == clamp (PDController.max_angle c) (PDController.Kp c * e)
    /\ PDController.prev_error c' = e /\ PDController.has_prev c' = true.
Proof.
  intros Hm.
  pose proof (control_returns (snd (PDController.reset c)) w e) as E.
  cbv zeta in E. simpl in E. eexists _, _, _.
  split; [apply E; discriminate|].
  split; [|split; reflexivity].
  rewrite (clamp_code _ _ Hm). apply clamp_compat. ring.
Qed.

Lemma control_after_reset_witness :
  exists (a : Q) (c' : PDController.t) (w' : World),
    PDController.control (Some 0.5)
      (snd (PDController.reset (PDController.mk 30 0 30 0.48 0.25 true)),
       quiet_world)
    = (Return (Some a), (c', w'))
    /\ a == clamp 30 (30 * 0.5).
Proof.
  destruct (control_after_reset (PDController.mk 30 0 30 0.48 0.25 true)
              quiet_world 0.5) as (a & c' & w' & E & Ha & _).
  - vm_compute. discriminate.
  - exists a, c', w'. split; [exact E | exact Ha].
Defined.

(** ** The controller thread *)

Lemma deadband_range o : -1 <= o <= 1 -> -1 <= deadband o <= 1.
Proof. intros H. unfold deadband. destruct (Qltb _ _); lra. Qed.

(** A round on an empty bus. *)
Lemma controller_round_idle (fuel : nat) (offset_bus : Bus.t OffsetMessage)
    (th : Thread) :
  Bus.message offset_bus = None ->
  exists th' : Thread,
    controller_round fuel offset_bus th = Some (Return tt, th')
    /\ controller th' = controller th /\ prev_offset th' = prev_offset th
    /\ env (world th') = env (world th)
    /\ log (world th')
       = log (world th) ++ [Stop; SetDirServoAngle 0; Sleep CONTROL_DT].
Proof.
  intros Hm. unfold controller_round, Bus.read. simpl fst. rewrite Hm.
  destruct th as [c p w].
  eexists (Build_Thread _ _ _). split; [reflexivity|].
  cbn [controller prev_offset world env log].
  repeat split. rewrite <- !app_assoc. reflexivity.
Qed.

(** A round on a bus that holds an offset. *)
Lemma controller_round_track (fuel : nat) (offset_bus : Bus.t OffsetMessage)
    (msg : OffsetMessage) (o : Q) (th : Thread) :
  Bus.message offset_bus = Some msg -> offset msg = Some o ->
  0 <= PDController.max_angle (controller th) ->
  (PDController.has_prev (controller th) = true ->
   ~ PDController.dt (controller th) == 0) ->
  exists (a : Q) (th' : Thread),
    controller_round fuel offset_bus th = Some (Return tt, th')
    /\ prev_offset th' = ALPHA * deadband o + (1 - ALPHA) * prev_offset th
    /\ controller th'
       = PDController.mk (PDController.max_angle (controller th))
           (PDController.dt (controller th)) (PDController.Kp (controller th))
           (PDController.Kd (controller th)) (prev_offset th') true
    /\ env (world th') = env (world th)
    /\ log (world th')
       = log (world th)
         ++ [SetDirServoAngle a; Forward FWD_POWER; Sleep CONTROL_DT]
    /\ - PDController.max_angle (controller th) <= a
       <= PDController.max_angle (controller th)
    /\ a == clamp (PDController.max_angle (controller th))
              (PDController.Kp (controller th) * prev_offset th'
               + PDController.Kd (controller th)
                 * (if PDController.has_prev (controller th)
                    then (prev_offset th'
                          - PDController.prev_error (controller th))
                         / PDController.dt (controller th)
                    else 0)).
Proof.
  intros Hm Ho Hmax Hdt. unfold controller_round, Bus.read. simpl fst.
  rewrite Hm, Ho. destruct th as [c p w].
  cbn [controller prev_offset world] in *.
  unfold bind, get, set_prev_offset, on_controller.
  cbn [controller prev_offset world fst snd].
  pose proof (control_returns c w
                (ALPHA * (if Qltb (py_abs o) DEADBAND then 0 else o)
                 + (1 - ALPHA) * p) Hdt) as E.
  cbv zeta in E. rewrite E. cbn [fst snd].
  eexists _, (Build_Thread _ _ _). split; [reflexivity|].
  cbn [controller prev_offset world env log].
  unfold px_set_dir_servo_angle, call. cbn [snd env log].
  split; [reflexivity|]. split; [reflexivity|]. split; [reflexivity|].
  split; [rewrite <- !app_assoc; reflexivity|].
  split; [rewrite (clamp_code _ _ Hmax); apply clamp_bounds, Hmax|].
  apply clamp_code, Hmax.
Qed.

Lemma steer_within_sleeps m d k : Forall (steer_within m) (repeat (Sleep d) k).
Proof.
  induction k as [|k IH]; simpl; constructor; [exact I | exact IH].
Qed.

(** A round on a bus that holds a lost line, with what it keeps. *)
Lemma controller_round_lost_frame (fuel : nat)
    (offset_bus : Bus.t OffsetMessage) (msg : OffsetMessage) (th : Thread) :
  causal (env (world th)) -> (252 <= fuel)%nat ->
  Bus.message offset_bus = Some msg -> offset msg = None ->
  exists (th' : Thread) (k : nat),
    controller_round fuel offset_bus th = Some (Return tt, th')
    /\ log (world th')
       = log (world th)
         ++ [Stop]
         ++ [Stop; Sleep 0.15; SetDirServoAngle RECOVER_STEER;
             Backward REV_POWER]
         ++ repeat (Sleep RECOVER_DT) k ++ [Stop; Sleep 0.1]
         ++ [Sleep CONTROL_DT]
    /\ env (world th') = env (world th)
    /\ PDController.max_angle (controller th')
       = PDController.max_angle (controller th)
    /\ PDController.dt (controller th') = PDController.dt (controller th)
    /\ prev_offset th' = 0.
Proof.
  intros Hc Hf Hm Ho. unfold controller_round, Bus.read. simpl fst.
  rewrite Hm, Ho.
  destruct th as [c p w]. cbv [world] in *.
  assert (E1 : exists w1, px_stop w = (Return tt, w1) /\ env w1 = env w
                          /\ log w1 = log w ++ [Stop]).
  { eexists. split; [reflexivity|]. split; reflexivity. }
  destruct E1 as (w1 & E1 & He1 & Hl1). rewrite E1.
  destruct (recover_spec w1 fuel) as (t0 & why & w2 & k & E & He2 & _ & Hl & _);
    [now rewrite He1 | exact Hf |].
  rewrite E.
  eexists (Build_Thread _ _ _), k. split; [reflexivity|].
  cbv [controller prev_offset world]. simpl fst. simpl snd.
  split; [cbn [log]; rewrite Hl, Hl1, <- !app_assoc; reflexivity|].
  split; [cbn [env]; congruence|]. repeat split.
Qed.

(** Any round of the controller loop. *)
Lemma controller_round_safe (fuel : nat) (offset_bus : Bus.t OffsetMessage)
    (th : Thread) :
  causal (env (world th)) -> (252 <= fuel)%nat ->
  0 <= PDController.max_angle (controller th) ->
  ~ PDController.dt (controller th) == 0 ->
  exists (th' : Thread) (evs : list Event),
    controller_round fuel offset_bus th = Some (Return tt, th')
    /\ PDController.max_angle (controller th')
       = PDController.max_angle (controller th)
    /\ PDController.dt (controller th') = PDController.dt (controller th)
    /\ env (world th') = env (world th)
    /\ log (world th') = log (world th) ++ evs
    /\ Forall (steer_within (PDController.max_angle (controller th))) evs
    /\ (offsets_in_range offset_bus -> -1 <= prev_offset th <= 1 ->
        -1 <= prev_offset th' <= 1).
Proof.
  intros Hc Hf Hm Hdt.
  destruct (Bus.message offset_bus) as [msg|] eqn:Eb.
  - destruct (offset msg) as [o|] eqn:Eo.
    + destruct (controller_round_track fuel offset_bus msg o th Eb Eo Hm
                  (fun _ => Hdt))
        as (a & th' & E & Hp & Hctl & He & Hl & Ha & _).
      exists th', [SetDirServoAngle a; Forward FWD_POWER; Sleep CONTROL_DT].
      split; [exact E|]. rewrite Hctl. cbn [PDController.max_angle
        PDController.dt]. split; [reflexivity|]. split; [reflexivity|].
      split; [exact He|]. split; [exact Hl|].
      split; [constructor; [exact Ha | repeat constructor]|].
      intros Hin Hprev. rewrite Hp.
      pose proof (deadband_range o (Hin msg o Eb Eo)) as Hd.
      unfold ALPHA. lra.
    + destruct (controller_round_lost_frame fuel offset_bus msg th Hc Hf Eb Eo)
        as (th' & k & E & Hl & He & Hma & Hd & Hp).
      eexists th', _. split; [exact E|].
      split; [exact Hma|]. split; [exact Hd|]. split; [exact He|].
      split; [exact Hl|].
      split; [|intros _ _; rewrite Hp; lra].
      repeat (apply Forall_app; split);
        try apply steer_within_sleeps; repeat constructor;
        unfold RECOVER_STEER; simpl; lra.
  - destruct (controller_round_idle fuel offset_bus th Eb)
      as (th' & E & Hctl & Hp & He & Hl).
    eexists th', _. split; [exact E|]. rewrite Hctl.
    split; [reflexivity|]. split; [reflexivity|]. split; [exact He|].
    split; [exact Hl|].
    split; [repeat constructor; simpl; lra|].
    intros _ Hprev. rewrite Hp. exact Hprev.
Qed.

Lemma controller_loop_safe (fuel : nat) (buses : list (Bus.t OffsetMessage)) :
  forall th : Thread,
    causal (env (world th)) -> (252 <= fuel)%nat ->
    0 <= PDController.max_angle (controller th) ->
    ~ PDController.dt (controller th) == 0 ->
    Forall offsets_in_range buses -> -1 <= prev_offset th <= 1 ->
    exists (b : bool) (th' : Thread) (evs : list Event),
      controller_loop fuel buses th = Some (Return b, th')
      /\ log (world th') = log (world th) ++ evs
      /\ Forall (steer_within (PDController.max_angle (controller th))) evs
      /\ -1 <= prev_offset th' <= 1
      /\ (b = true -> exists i : nat, is_set_at (env (world th)) i = true).
Proof.
  induction buses as [|bus rest IH]; intros th Hc Hf Hm Hdt Hin Hp.
  - exists false, th, []. simpl. rewrite app_nil_r.
    repeat split; try tauto; try constructor. discriminate.
  - inversion Hin as [|? ? Hb Hrest]; subst. simpl controller_loop.
    destruct th as [c p w]. cbn [controller prev_offset world] in *.
    unfold on_world, is_set, bind, get, call, ret.
    cbn [controller prev_offset world env now tick log].
    destruct (is_set_at (env w) (tick w)) eqn:Es.
    + eexists true, (Build_Thread _ _ _), []. split; [reflexivity|].
      cbn [controller prev_offset world log]. rewrite !app_nil_r.
      repeat split; try tauto; try constructor. intros _. eauto.
    + match goal with
      | |- context [controller_round fuel bus ?t1] =>
          destruct (controller_round_safe fuel bus t1)
            as (th2 & evs & E & Hma & Hd & He & Hl & Hs & Hr);
          cbn [controller prev_offset world env] in *; auto
      end.
      rewrite E.
      assert (Hc2 : causal (env (world th2))) by (rewrite He; exact Hc).
      assert (Hm2 : 0 <= PDController.max_angle (controller th2))
        by (rewrite Hma; exact Hm).
      assert (Hdt2 : ~ PDController.dt (controller th2) == 0)
        by (rewrite Hd; exact Hdt).
      assert (Hp2 : -1 <= prev_offset th2 <= 1) by (apply Hr; assumption).
      destruct (IH th2 Hc2 Hf Hm2 Hdt2 Hrest Hp2)
        as (b & th' & evs' & E' & Hl' & Hs' & Hp' & Hb').
      exists b, th', (evs ++ evs'). split; [exact E'|].
      split; [rewrite Hl', Hl; cbn [log];
              rewrite app_nil_r, <- app_assoc; reflexivity|].
      split; [apply Forall_app; split; [exact Hs|];
              rewrite Hma in Hs'; exact Hs'|].
      split; [exact Hp'|]. rewrite He in Hb'. exact Hb'.
Qed.

(** X13. A round of the controller loop that reads an offset [o] (with a
    non-negative limit, and a non-zero [dt] once a previous error is
    stored) smooths the dead-banded offset,
    ALPHA * deadband(o) + (1 - ALPHA) * prev_offset, feeds that to the
    controller, and commands exactly: one steering angle within the limit,
    forward drive at FWD_POWER, one sleep of CONTROL_DT.  It never takes
    the branch that stops the robot on a missing angle. *)
Theorem tracking_round (fuel : nat) (offset_bus : Bus.t OffsetMessage)
    (msg : OffsetMessage) (o : Q) (th : Thread) :
  Bus.message offset_bus = Some msg -> offset msg = Some o ->
  0 <= PDController.max_angle (controller th) ->
  (PDController.has_prev (controller th) = true ->
   ~ PDController.dt (controller th) == 0) ->
  exists (a : Q) (th' : Thread),
    controller_round fuel offset_bus th = Some (Return tt, th')
    /\ prev_offset th' = ALPHA * deadband o + (1 - ALPHA) * prev_offset th
    /\ PDController.prev_error (controller th') = prev_offset th'
    /\ PDController.has_prev (controller th') = true
    /\ log (world th')
       = log (world th)
         ++ [SetDirServoAngle a; Forward FWD_POWER; Sleep CONTROL_DT]
    /\ - PDController.max_angle (controller th) <= a
       <= PDController.max_angle (controller th)
    /\ a == clamp (PDController.max_angle (controller th))
              (PDController.Kp (controller th) * prev_offset th'
               + PDController.Kd (controller th)
                 * (if PDController.has_prev (controller th)
                    then (prev_offset th'
                          - PDController.prev_error (controller th))
                         / PDController.dt (controller th)
                    else 0)).
Proof.
  intros Hm Ho Hmax Hdt.
  destruct (controller_round_track fuel offset_bus msg o th Hm Ho Hmax Hdt)
    as (a & th' & E & Hp & Hctl & _ & Hl & Ha & Hv).
  exists a, th'. split; [exact E|]. split; [exact Hp|].
  rewrite Hctl. cbn [PDController.prev_error PDController.has_prev].
  repeat split; try assumption; apply Ha.
Qed.

Lemma tracking_round_witness :
  exists (a : Q) (th' : Thread),
    controller_round 0 (Bus.mk (Some (Build_OffsetMessage 0 (Some 0.5))))
      {| controller := PDController.__init__ MAX_ANGLE CONTROL_DT
                         RESPONSE DAMPING;
         prev_offset := 0;
         world := quiet_world |}
    = Some (Return tt, th')
    /\ prev_offset th' = ALPHA * deadband 0.5 + (1 - ALPHA) * 0
    /\ log (world th')
       = [SetDirServoAngle a; Forward FWD_POWER; Sleep CONTROL_DT].
Proof.
  destruct (tracking_round 0
              (Bus.mk (Some (Build_OffsetMessage 0 (Some 0.5))))
              (Build_OffsetMessage 0 (Some 0.5)) 0.5
              {| controller := PDController.__init__ MAX_ANGLE CONTROL_DT
                                 RESPONSE DAMPING;
                 prev_offset := 0;
                 world := quiet_world |})
    as (a & th' & E & Hp & _ & _ & Hl & _).
  - reflexivity.
  - reflexivity.
  - vm_compute. discriminate.
  - discriminate.
  - exists a, th'. split; [exact E|]. split; [exact Hp | exact Hl].
Defined.

(** X14. The controller thread is safe over any run.  When calls take
    non-negative time, the limit is non-negative, [dt] is not zero and the
    offsets found on the bus lie in [[-1, 1]], then for every series of
    bus contents the loop runs without raising, every steering command it
    sends (tracking, centring on an empty bus, recovery) is within the
    limit, the smoothed offset stays in [[-1, 1]], and the loop stops
    early only if the stop event was found set. *)
Theorem controller_thread_safe (fuel : nat)
    (buses : list (Bus.t OffsetMessage)) (ctl : PDController.t) (w : World) :
  causal (env w) -> (252 <= fuel)%nat ->
  0 <= PDController.max_angle ctl -> ~ PDController.dt ctl == 0 ->
  Forall offsets_in_range buses ->
  exists (b : bool) (th' : Thread) (evs : list Event),
    controller_thread_fn fuel buses ctl w = Some (Return b, th')
    /\ log (world th') = log w ++ evs
    /\ Forall (steer_within (PDController.max_angle ctl)) evs
    /\ -1 <= prev_offset th' <= 1
    /\ (b = true -> exists i : nat, is_set_at (env w) i = true).
Proof.
  intros Hc Hf Hm Hdt Hin. unfold controller_thread_fn.
  apply (controller_loop_safe fuel buses
           {| controller := ctl; prev_offset := 0; world := w |});
    cbn [controller prev_offset world]; try assumption. lra.
Qed.

Lemma controller_thread_safe_witness :
  exists (b : bool) (th' : Thread) (evs : list Event),
    controller_thread_fn 252
      [Bus.mk None; Bus.mk (Some (Build_OffsetMessage 0 (Some 0.5)));
       Bus.mk (Some (Build_OffsetMessage 1 None))]
      (PDController.__init__ MAX_ANGLE CONTROL_DT RESPONSE DAMPING)
      quiet_world
    = Some (Return b, th')
    /\ log (world th') = [] ++ evs
    /\ Forall (steer_within 30) evs.
Proof.
  destruct (controller_thread_safe 252
              [Bus.mk None; Bus.mk (Some (Build_OffsetMessage 0 (Some 0.5)));
               Bus.mk (Some (Build_OffsetMessage 1 None))]
              (PDController.__init__ MAX_ANGLE CONTROL_DT RESPONSE DAMPING)
              quiet_world) as (b & th' & evs & E & Hl & Hs & _).
  - intros i. vm_compute. discriminate.
  - lia.
  - vm_compute. discriminate.
  - vm_compute. discriminate.
  - constructor; [intros m o Hm Ho; simpl in Hm; discriminate|].
    constructor;
      [intros m o Hm Ho; simpl in Hm; injection Hm as <-; simpl in Ho;
       injection Ho as <-; lra|].
    constructor;
      [intros m o Hm Ho; simpl in Hm; injection Hm as <-; simpl in Ho;
       discriminate|].
    constructor.
  - exists b, th', evs. split; [exact E|]. split; [exact Hl | exact Hs].
Defined.

(** ** Recovery: early exits and duration *)

(** X15. The recovery reverses before it looks at anything.  If the stop
    event is already set at the first check, the maneuver still stops,
    steers, reverses, stops again and sleeps, without polling the sensors
    (8 calls in all); if instead the first poll reads a line, it ends
    there as well, with no sleep of RECOVER_DT in between. *)
Theorem recovery_first_round (w : World) (fuel : nat) :
  (1 <= fuel)%nat ->
  (is_set_at (env w) (tick w + 5) = true ->
   exists (t0 : Q) (w' : World),
     recover_reverse_until_line fuel w = Some (Return (t0, Cancelled), w')
     /\ tick w' = (tick w + 8)%nat
     /\ log w' = log w ++ [Stop; Sleep 0.15; SetDirServoAngle RECOVER_STEER;
                           Backward REV_POWER; Stop; Sleep 0.1])
  /\ (is_set_at (env w) (tick w + 5) = false ->
      line_seen_thresh (adc_list (env w) (tick w + 6)) = Return true ->
      exists (t0 : Q) (w' : World),
        recover_reverse_until_line fuel w = Some (Return (t0, Reacquired), w')
        /\ tick w' = (tick w + 9)%nat
        /\ log w' = log w ++ [Stop; Sleep 0.15; SetDirServoAngle RECOVER_STEER;
                              Backward REV_POWER; Stop; Sleep 0.1]).
Proof.
  intros Hf. destruct fuel as [|fuel]; [lia|]. destruct w as [e t k l].
  cbn [env tick log].
  replace (k + 5)%nat with (S (S (S (S (S k))))) by lia.
  replace (k + 6)%nat with (S (S (S (S (S (S k)))))) by lia.
  replace (k + 8)%nat with (S (S (S (S (S (S (S (S k)))))))) by lia.
  replace (k + 9)%nat with (S (S (S (S (S (S (S (S (S k))))))))) by lia.
  split.
  - intros Hs.
    cbv beta iota zeta delta
      [recover_reverse_until_line recover_begin recover_end loop recover_round
       bind is_set get call ret lift px_get_grayscale_data time sleep px_stop
       px_set_dir_servo_angle px_backward env now tick log].
    rewrite Hs.
    eexists _, (Build_World _ _ _ _). split; [reflexivity|].
    cbn [tick log]. split; [reflexivity|].
    rewrite !app_nil_r, <- !app_assoc. reflexivity.
  - intros Hs Hseen.
    cbv beta iota zeta delta
      [recover_reverse_until_line recover_begin recover_end loop recover_round
       bind is_set get call ret lift px_get_grayscale_data time sleep px_stop
       px_set_dir_servo_angle px_backward env now tick log].
    rewrite Hs, Hseen.
    eexists _, (Build_World _ _ _ _). split; [reflexivity|].
    cbn [tick log]. split; [reflexivity|].
    rewrite !app_nil_r, <- !app_assoc. reflexivity.
Qed.

Lemma recovery_first_round_witness :
  exists (t0 : Q) (w' : World),
    recover_reverse_until_line 1
      {| env := {| is_set_at := fun _ => true;
                   adc_at := fun _ => (1000, 1000, 1000);
                   lag_at := fun _ => 0 |};
         now := 0; tick := 0; log := [] |}
    = Some (Return (t0, Cancelled), w')
    /\ log w' = [Stop; Sleep 0.15; SetDirServoAngle RECOVER_STEER;
                 Backward REV_POWER; Stop; Sleep 0.1].
Proof.
  destruct (recovery_first_round
              {| env := {| is_set_at := fun _ => true;
                           adc_at := fun _ => (1000, 1000, 1000);
                           lag_at := fun _ => 0 |};
                 now := 0; tick := 0; log := [] |} 1) as [H _]; [lia|].
  destruct (H eq_refl) as (t0 & w' & E & _ & Hl).
  exists t0, w'. split; [exact E | exact Hl].
Defined.

Lemma recover_round_upper t0 w d :
  causal (env w) -> prompt (env w) d ->
  exists (r : option Exit) (w' : World),
    recover_round t0 w = (Return r, w') /\ env w' = env w
    /\ match r with
       | Some _ => now w' <= now w + 3 * d
       | None => now w' <= t0 + RECOVER_MAX_TIME + RECOVER_DT + d
       end.
Proof.
  intros Hc Hd.
  pose proof (Hc (tick w)) as H0. pose proof (Hc (S (tick w))) as H1.
  pose proof (Hc (S (S (tick w)))) as H2.
  pose proof (Hd (tick w)) as D0. pose proof (Hd (S (tick w))) as D1.
  pose proof (Hd (S (S (tick w)))) as D2.
  pose proof (Hd (S (S (S (tick w))))) as D3.
  destruct w as [e t k l]. cbv [env now tick log] in *.
  destruct (line_seen_thresh_adc e (S k)) as [b Eb].
  cbv beta iota zeta delta
    [recover_round bind is_set get call ret lift px_get_grayscale_data
     time sleep env now tick log].
  destruct (is_set_at e k) eqn:Es.
  - eexists _, _. split; [reflexivity|]. cbv [env now]. split; [reflexivity|].
    lra.
  - rewrite Eb. destruct b.
    + eexists _, _. split; [reflexivity|]. cbv [env now].
      split; [reflexivity|]. lra.
    + destruct (Qgtb _ RECOVER_MAX_TIME) eqn:Et.
      * eexists _, _. split; [reflexivity|]. cbv [env now].
        split; [reflexivity|]. lra.
      * eexists _, _. split; [reflexivity|]. cbv [env now].
        split; [reflexivity|]. Qprop Et. lra.
Qed.

Lemma recover_loop_upper t0 d : forall (fuel : nat) (w : World) why w',
  causal (env w) -> prompt (env w) d ->
  now w <= t0 + RECOVER_MAX_TIME + RECOVER_DT + d ->
  loop fuel (recover_round t0) w = Some (Return why, w') ->
  now w' <= t0 + RECOVER_MAX_TIME + RECOVER_DT + 4 * d.
Proof.
  induction fuel as [|fuel IH]; intros w why w' Hc Hd Hn; [discriminate|].
  simpl loop.
  destruct (recover_round_upper t0 w d Hc Hd) as (r & w1 & E & He & Hr).
  rewrite E. destruct r as [x|].
  - intros [= <- <-]. lra.
  - apply IH; [rewrite He; exact Hc | rewrite He; exact Hd | exact Hr].
Qed.

Lemma recover_begin_upper w d :
  prompt (env w) d ->
  forall t0 w1, recover_begin w = (Return t0, w1) ->
                t0 = now w1 /\ now w1 <= now w + 0.15 + 5 * d.
Proof.
  intros Hd t0 w1.
  pose proof (Hd (tick w)) as D0. pose proof (Hd (S (tick w))) as D1.
  pose proof (Hd (S (S (tick w)))) as D2.
  pose proof (Hd (S (S (S (tick w))))) as D3.
  pose proof (Hd (S (S (S (S (tick w)))))) as D4.
  destruct w as [e t k l]. cbv [env now tick log] in *.
  cbv beta iota zeta delta
    [recover_begin bind get call ret px_stop sleep px_set_dir_servo_angle
     px_backward time env now tick log].
  intros [= <- <-]. cbv [now]. split; [reflexivity|]. lra.
Qed.

Lemma recover_end_upper w d :
  prompt (env w) d ->
  forall w', recover_end w = (Return tt, w') -> now w' <= now w + 0.1 + 2 * d.
Proof.
  intros Hd w'.
  pose proof (Hd (tick w)) as D0. pose proof (Hd (S (tick w))) as D1.
  destruct w as [e t k l]. cbv [env now tick log] in *.
  cbv beta iota zeta delta
    [recover_end bind call ret px_stop sleep env now tick log].
  intros [= <-]. cbv [now]. lra.
Qed.



(** ** The sensor and interpreter threads *)

(** X17. [GrayscaleSensor.read] polls the robot three times, once per
    channel, and keeps the left value of the first poll, the middle value
    of the second and the right value of the third; it never raises.  The
    list is one scene of the floor only if the three polls read the
    same. *)
Theorem sensor_read_three_polls (w : World) :
  exists w' : World,
    GrayscaleSensor.read w
    = (Return [fst (fst (adc_at (env w) (tick w)));
               snd (fst (adc_at (env w) (tick w + 1)));
               snd (adc_at (env w) (tick w + 2))], w')
    /\ tick w' = (tick w + 3)%nat /\ log w' = log w /\ env w' = env w
    /\ (forall v : Q * Q * Q,
          adc_at (env w) (tick w) = v -> adc_at (env w) (tick w + 1) = v ->
          adc_at (env w) (tick w + 2) = v ->
          fst (GrayscaleSensor.read w)
          = Return [fst (fst v); snd (fst v); snd v]).
Proof.
  destruct w as [e t k l]. cbn [env tick log].
  replace (k + 1)%nat with (S k) by lia.
  replace (k + 2)%nat with (S (S k)) by lia.
  replace (k + 3)%nat with (S (S (S k))) by lia.
  assert (E : exists w',
             GrayscaleSensor.read {| env := e; now := t; tick := k; log := l |}
             = (Return [fst (fst (adc_at e k)); snd (fst (adc_at e (S k)));
                        snd (adc_at e (S (S k)))], w')
             /\ tick w' = S (S (S k)) /\ log w' = l /\ env w' = e).
  { cbv beta iota zeta delta
      [GrayscaleSensor.read GrayscaleSensor.adc_left GrayscaleSensor.adc_mid
       GrayscaleSensor.adc_right GrayscaleSensor.adc bind get call ret lift
       px_get_grayscale_data adc_list env now tick log].
    destruct (adc_at e k) as [[L0 M0] R0].
    destruct (adc_at e (S k)) as [[L1 M1] R1].
    destruct (adc_at e (S (S k))) as [[L2 M2] R2].
    eexists (Build_World _ _ _ _). split; [reflexivity|].
    cbn [tick log env]. rewrite !app_nil_r. auto. }
  destruct E as (w' & E & Ht & Hl & He).
  exists w'. repeat (split; [assumption|]).
  intros v H0 H1 H2. rewrite E. simpl fst. rewrite H0, H1, H2. reflexivity.
Qed.

(** X18. A round of the sensor thread never raises and replaces whatever
    the bus held by a message of exactly three readings, stamped with the
    clock after the polls; it commands nothing and sleeps SENSOR_DT. *)
Theorem sensor_round_publishes (bus : Bus.t ADCMessage) (w : World) :
  causal (env w) ->
  exists (m : ADCMessage) (w' : World),
    sensor_round (bus, w) = (Return tt, (Bus.mk (Some m), w'))
    /\ length (vals m) = 3%nat
    /\ now w <= adc_t m /\ adc_t m + SENSOR_DT <= now w'
    /\ log w' = log w ++ [Sleep SENSOR_DT]
    /\ env w' = env w.
Proof.
  intros Hc.
  pose proof (Hc (tick w)) as H0. pose proof (Hc (S (tick w))) as H1.
  pose proof (Hc (S (S (tick w)))) as H2.
  pose proof (Hc (S (S (S (tick w))))) as H3.
  pose proof (Hc (S (S (S (S (tick w)))))) as H4.
  destruct w as [e t k l]. cbn [env now tick log] in *.
  cbv beta iota zeta delta
    [sensor_round on_fst on_snd fst snd Bus.write
     GrayscaleSensor.read GrayscaleSensor.adc_left GrayscaleSensor.adc_mid
     GrayscaleSensor.adc_right GrayscaleSensor.adc bind get call ret lift
     px_get_grayscale_data adc_list time sleep env now tick log].
  destruct (adc_at e k) as [[L0 M0] R0].
  destruct (adc_at e (S k)) as [[L1 M1] R1].
  destruct (adc_at e (S (S k))) as [[L2 M2] R2].
  cbv beta iota zeta delta
    [GrayscaleInterpreter.getitem lookup list_lookup fst snd].
  eexists (Build_ADCMessage _ _), (Build_World _ _ _ _).
  split; [reflexivity|]. cbn [vals adc_t now log env].
  rewrite !app_nil_r. unfold SENSOR_DT.
  repeat split; try reflexivity; lra.
Qed.

Lemma sensor_round_publishes_witness :
  exists (m : ADCMessage) (w' : World),
    sensor_round (Bus.__init__ None, quiet_world)
    = (Return tt, (Bus.mk (Some m), w'))
    /\ length (vals m) = 3%nat.
Proof.
  destruct (sensor_round_publishes (Bus.__init__ None) quiet_world)
    as (m & w' & E & Hl & _).
  - intros i. vm_compute. discriminate.
  - exists m, w'. split; [exact E | exact Hl].
Defined.

Lemma offset_spec_range self L M R o r :
  offset_of (sensitivity self) (thresh self) (polarity self) L M R
  = Return o -> o = Some r -> -1 <= r <= 1.
Proof. intros E ->. exact (offset_of_range _ _ _ _ _ _ _ E). Qed.

(** X19. A round of the interpreter thread on a fresh sample of three
    readings publishes the offset of the specification for them, which
    satisfies the controller's input bound, and remembers the sample's
    timestamp; a further round on the same sensor message only sleeps: it
    neither updates the baseline again nor writes to the offset bus. *)
Theorem interpreter_round_once (adc_bus : Bus.t ADCMessage) (m : ADCMessage)
    (L M R : Q) (st : InterpreterThread) :
  Bus.message adc_bus = Some m -> vals m = [L; M; R] ->
  wf_baseline (it_interp st) -> stale (Some m) (it_last_t st) = false ->
  exists (st1 st2 : InterpreterThread) (o : option Q) (stamp : Q),
    interpreter_round adc_bus st = (Return tt, st1)
    /\ it_last_t st1 = Some (adc_t m)
    /\ Bus.message (it_offset_bus st1) = Some (Build_OffsetMessage stamp o)
    /\ offset_spec (it_interp st) L M R o
    /\ offsets_in_range (it_offset_bus st1)
    /\ it_interp st1 = snd (process [L; M; R] (it_interp st))
    /\ interpreter_round adc_bus st1 = (Return tt, st2)
    /\ it_interp st2 = it_interp st1
    /\ it_offset_bus st2 = it_offset_bus st1
    /\ it_last_t st2 = it_last_t st1.
Proof.
  intros Hm Hv Hwf Hst.
  destruct (process_wf (it_interp st) L M R Hwf) as (Hp & _).
  destruct (offset_of_meets_spec (it_interp st) L M R) as (o & Eo & So).
  rewrite Eo in Hp.
  destruct st as [i lt ob w]. cbn [it_interp it_last_t] in *.
  unfold interpreter_round, bind, lift, get, Bus.read. simpl fst.
  rewrite Hm. cbv iota beta. cbn [it_last_t]. rewrite Hst.
  unfold it_set_last_t, it_process, it_time, it_write, it_sleep, Bus.write.
  cbn [it_interp it_last_t it_offset_bus it_world]. rewrite Hv.
  destruct (process [L; M; R] i) as [r i'] eqn:Ep. simpl in Hp. subst r.
  cbn [it_interp it_last_t it_offset_bus it_world fst snd].
  unfold time, sleep, bind, get, call, ret.
  cbn [it_interp it_last_t it_offset_bus it_world fst snd env now tick log].
  eexists (Build_InterpreterThread _ _ _ _), (Build_InterpreterThread _ _ _ _),
    o, _.
  split; [reflexivity|].
  cbn [it_interp it_last_t it_offset_bus it_world Bus.message].
  split; [reflexivity|]. split; [reflexivity|]. split; [exact So|].
  split.
  { intros m' o' [= <-]. cbn [offset]. intros Ho.
    exact (offset_spec_range i L M R o o' Eo Ho). }
  split; [reflexivity|].
  unfold stale. rewrite Qeq_bool_refl.
  cbn [it_interp it_last_t it_offset_bus it_world].
  split; [reflexivity|]. repeat split.
Qed.

Lemma interpreter_round_once_witness :
  exists (st1 st2 : InterpreterThread) (o : option Q) (stamp : Q),
    interpreter_round
      (Bus.mk (Some {| adc_t := 1; vals := [200; 900; 900] |}))
      {| it_interp := launcher_interp; it_last_t := None;
         it_offset_bus := Bus.__init__ None; it_world := quiet_world |}
    = (Return tt, st1)
    /\ Bus.message (it_offset_bus st1) = Some (Build_OffsetMessage stamp o)
    /\ interpreter_round
         (Bus.mk (Some {| adc_t := 1; vals := [200; 900; 900] |})) st1
       = (Return tt, st2)
    /\ it_offset_bus st2 = it_offset_bus st1.
Proof.
  destruct (interpreter_round_once
              (Bus.mk (Some {| adc_t := 1; vals := [200; 900; 900] |}))
              {| adc_t := 1; vals := [200; 900; 900] |} 200 900 900
              {| it_interp := launcher_interp; it_last_t := None;
                 it_offset_bus := Bus.__init__ None;
                 it_world := quiet_world |})
    as (st1 & st2 & o & stamp & E1 & _ & Hb & _ & _ & _ & E2 & _ & Hob & _).
  - reflexivity.
  - reflexivity.
  - exact I.
  - reflexivity.
  - exists st1, st2, o, stamp. repeat split; assumption.
Defined.

(** ** Recovery: what ends the poll loop *)

(** [line_seen_thresh] decides [line_visible]. *)
Lemma line_seen_thresh_visible e i :
  exists b : bool,
    line_seen_thresh (adc_list e i) = Return b
    /\ (b = true <-> line_visible (adc_at e i)).
Proof.
  unfold adc_list, line_visible. destruct (adc_at e i) as [[L M] R].
  eexists. split; [reflexivity|]. unfold crosses. simpl String.eqb.
  cbv iota. rewrite !orb_true_iff, !Qltb_lt. tauto.
Qed.

Lemma recover_round_exact t0 w :
  causal (env w) ->
  exists (r : option Exit) (w' : World),
    recover_round t0 w = (Return r, w')
    /\ env w' = env w /\ now w <= now w'
    /\ match r with
       | Some why =>
           log w' = log w /\ exit_exact t0 (env w) (tick w) (now w') why
       | None =>
           log w' = log w ++ [Sleep RECOVER_DT]
           /\ tick w' = (tick w + 4)%nat
           /\ is_set_at (env w) (tick w) = false
           /\ ~ line_visible (adc_at (env w) (tick w + 1))
           /\ now w <= t0 + RECOVER_MAX_TIME
           /\ now w + RECOVER_DT <= now w'
       end.
Proof.
  intros Hc.
  pose proof (Hc (tick w)) as H0. pose proof (Hc (S (tick w))) as H1.
  pose proof (Hc (S (S (tick w)))) as H2.
  pose proof (Hc (S (S (S (tick w))))) as H3.
  destruct w as [e t k l]. cbv [env now tick log] in *.
  replace (k + 1)%nat with (S k) by lia.
  replace (k + 4)%nat with (S (S (S (S k)))) by lia.
  destruct (line_seen_thresh_visible e (S k)) as (b & Eb & Hb).
  cbv beta iota zeta delta
    [recover_round bind is_set get call ret lift px_get_grayscale_data
     time sleep env now tick log].
  destruct (is_set_at e k) eqn:Es.
  - eexists _, _. split; [reflexivity|]. cbv [env now tick log].
    rewrite app_nil_r. simpl exit_exact.
    repeat split; try lra; try lia. exact Es.
  - rewrite Eb. destruct b.
    + eexists _, _. split; [reflexivity|]. cbv [env now tick log].
      rewrite !app_nil_r. simpl exit_exact.
      replace (k + 1)%nat with (S k) by lia.
      repeat split; try lra; try lia; try exact Es. apply Hb. reflexivity.
    + assert (Hn : ~ line_visible (adc_at e (S k)))
        by (intros Hv; apply Hb in Hv; discriminate).
      destruct (Qgtb _ RECOVER_MAX_TIME) eqn:Et.
      * eexists _, _. split; [reflexivity|]. cbv [env now tick log].
        rewrite !app_nil_r. Qprop Et. simpl exit_exact.
        replace (k + 1)%nat with (S k) by lia.
        repeat split; try lra; try lia; try exact Es; try exact Hn.
      * eexists _, _. split; [reflexivity|]. cbv [env now tick log].
        rewrite !app_nil_r. Qprop Et.
        unfold RECOVER_MAX_TIME, RECOVER_DT in *.
        repeat split; try lra; try lia; try exact Es; try exact Hn.
Qed.

(** The poll loop, round by round: the rounds before the last found no
    stop request and no line, and the last one has its reason. *)
Lemma recover_loop_exact t0 : forall (fuel n : nat) (w : World),
  causal (env w) ->
  t0 + RECOVER_DT * inject_Z (Z.of_nat n) <= now w ->
  (252 <= n + fuel)%nat -> (1 <= fuel)%nat ->
  exists (why : Exit) (w' : World) (k : nat),
    loop fuel (recover_round t0) w = Some (Return why, w')
    /\ env w' = env w
    /\ log w' = log w ++ repeat (Sleep RECOVER_DT) k
    /\ (k <= 251 - n)%nat
    /\ now w <= now w'
    /\ (forall j : nat, (j < k)%nat ->
          is_set_at (env w) (tick w + 4 * j) = false
          /\ ~ line_visible (adc_at (env w) (tick w + 4 * j + 1)))
    /\ exit_exact t0 (env w) (tick w + 4 * k) (now w') why.
Proof.
  induction fuel as [|fuel IH]; intros n w Hc Hn Hf H1; [lia|].
  simpl loop.
  destruct (recover_round_exact t0 w Hc) as (r & w1 & E & He & Hnow & Hr).
  rewrite E. destruct r as [why|].
  - destruct Hr as [Hl Hj].
    exists why, w1, 0%nat. simpl repeat. rewrite app_nil_r.
    replace (tick w + 4 * 0)%nat with (tick w) by lia.
    repeat split; auto; lia.
  - destruct Hr as (Hl & Ht & Hs & Hv & Hmax & Hdt).
    assert (Hn250 : (n <= 250)%nat).
    { assert (H : inject_Z (Z.of_nat n) <= inject_Z 250).
      { unfold RECOVER_DT, RECOVER_MAX_TIME in *.
        change (inject_Z 250) with 250. lra. }
      apply nat_le_of_Qle in H. lia. }
    destruct (IH (S n) w1)
      as (why & w' & k & El & He' & Hl' & Hk & Hnow' & Hpre & Hj).
    + now rewrite He.
    + rewrite Nat2Z.inj_succ. unfold Z.succ. rewrite inject_Z_plus.
      unfold RECOVER_DT in *. change (inject_Z 1) with 1. lra.
    + lia.
    + lia.
    + exists why, w', (S k). split; [exact El|].
      split; [congruence|].
      split; [rewrite Hl', Hl, <- app_assoc; reflexivity|].
      split; [lia|]. split; [unfold RECOVER_DT in *; lra|].
      rewrite He, Ht in *. split.
      * intros [|j] Hj'.
        -- replace (tick w + 4 * 0)%nat with (tick w) by lia. auto.
        -- replace (tick w + 4 * S j)%nat with (tick w + 4 + 4 * j)%nat by lia.
           apply Hpre. lia.
      * replace (tick w + 4 * S k)%nat with (tick w + 4 + 4 * k)%nat by lia.
        exact Hj.
Qed.

Lemma exit_exact_later t0 e i c c' why :
  c <= c' -> exit_exact t0 e i c why -> exit_exact t0 e i c' why.
Proof.
  intros Hc. destruct why; simpl; [tauto | tauto |].
  intros (? & ? & ?). repeat split; try assumption. lra.
Qed.

(** The whole maneuver, round by round. *)
Lemma recover_exact (w : World) (fuel : nat) :
  causal (env w) -> (252 <= fuel)%nat ->
  exists (t0 : Q) (why : Exit) (w' : World) (k : nat),
    recover_reverse_until_line fuel w = Some (Return (t0, why), w')
    /\ (k <= 251)%nat
    /\ log w' = log w ++ [Stop; Sleep 0.15; SetDirServoAngle RECOVER_STEER;
                          Backward REV_POWER]
                      ++ repeat (Sleep RECOVER_DT) k ++ [Stop; Sleep 0.1]
    /\ now w + 0.15 <= t0
    /\ t0 + 0.1 <= now w'
    /\ (forall j : nat, (j < k)%nat ->
          is_set_at (env w) (check_of (tick w) j) = false
          /\ ~ line_visible (adc_at (env w) (check_of (tick w) j + 1)))
    /\ exit_exact t0 (env w) (check_of (tick w) k) (now w' - 0.1) why.
Proof.
  intros Hc Hf. unfold recover_reverse_until_line, check_of.
  destruct (recover_begin_spec w Hc) as (w1 & E1 & He1 & Hn1 & Ht1 & Hl1).
  rewrite E1.
  destruct (recover_loop_exact (now w1) fuel 0 w1)
    as (why & w2 & k & E2 & He2 & Hl2 & Hk & Hn2 & Hpre & Hj);
    [ now rewrite He1
    | change (inject_Z (Z.of_nat 0)) with 0; unfold RECOVER_DT; lra
    | lia | lia |].
  rewrite E2.
  destruct (recover_end_spec w2) as (w3 & E3 & He3 & Hn3 & Ht3 & Hl3);
    [now rewrite He2, He1|].
  rewrite E3. rewrite He1, Ht1 in *.
  exists (now w1), why, w3, k. split; [reflexivity|].
  split; [lia|].
  split; [rewrite Hl3, Hl2, Hl1, <- !app_assoc; reflexivity|].
  split; [exact Hn1|]. split; [lra|].
  split; [exact Hpre|].
  apply (exit_exact_later _ _ _ (now w2)); [lra | exact Hj].
Qed.

Lemma recover_loop_env t0 d : forall (fuel : nat) (w : World) why w',
  causal (env w) -> prompt (env w) d ->
  loop fuel (recover_round t0) w = Some (Return why, w') -> env w' = env w.
Proof.
  induction fuel as [|fuel IH]; intros w why w' Hc Hd; [discriminate|].
  simpl loop.
  destruct (recover_round_upper t0 w d Hc Hd) as (r & w1 & E & He & _).
  rewrite E. destruct r as [x|].
  - intros [= <- <-]. exact He.
  - intros H. rewrite <- He. apply (IH w1 why w'); [| | exact H];
      rewrite He; assumption.
Qed.

(** How late the recovery can begin its loop and return. *)
Lemma recover_upper (w : World) (fuel : nat) (d : Q) t0 why w' :
  causal (env w) -> prompt (env w) d ->
  recover_reverse_until_line fuel w = Some (Return (t0, why), w') ->
  t0 <= now w + 0.15 + 5 * d
  /\ now w' <= t0 + RECOVER_MAX_TIME + RECOVER_DT + 0.1 + 6 * d.
Proof.
  intros Hc Hd. unfold recover_reverse_until_line.
  destruct (recover_begin w) as [[e|t0'] w1] eqn:E1; [discriminate|].
  destruct (recover_begin_upper w d Hd t0' w1 E1) as [-> Hb].
  destruct (recover_begin_spec w Hc) as (w1' & E1' & He1 & _).
  assert (w1' = w1) by congruence. subst w1'. clear E1'.
  destruct (loop fuel (recover_round (now w1)) w1) as [[[e|x] w2]|] eqn:E2;
    try discriminate.
  assert (Hc1 : causal (env w1)) by (rewrite He1; exact Hc).
  assert (Hd1 : prompt (env w1) d) by (rewrite He1; exact Hd).
  assert (Hl : now w2 <= now w1 + RECOVER_MAX_TIME + RECOVER_DT + 4 * d).
  { apply (recover_loop_upper (now w1) d fuel w1 x w2 Hc1 Hd1); [|exact E2].
    pose proof (Hc 0%nat). pose proof (Hd 0%nat).
    unfold RECOVER_MAX_TIME, RECOVER_DT. lra. }
  pose proof (recover_loop_env (now w1) d fuel w1 x w2 Hc1 Hd1 E2) as He2.
  destruct (recover_end w2) as [[e|[]] w3] eqn:E3; [discriminate|].
  pose proof (recover_end_upper w2 d) as Hu. rewrite He2, He1 in Hu.
  specialize (Hu Hd w3 E3).
  intros [= <- <- <-]. split; lra.
Qed.



(** ** The baseline as the code stores it *)

Lemma adc_floats_checked :
  forallb (fun b => forallb (update_checked b) adc_floats) adc_floats = true.
Proof. vm_compute. reflexivity. Qed.

Lemma update_checked_all (b v : float) :
  In b adc_floats -> In v adc_floats -> update_checked b v = true.
Proof.
  intros Hb Hv. pose proof adc_floats_checked as H.
  rewrite forallb_forall in H. specialize (H b Hb).
  rewrite forallb_forall in H. exact (H v Hv).
Qed.




(** ** Exact statements and their binary64 limits *)

(** X1. In exact arithmetic a number returned by [process] is strictly
    between -1 and 1: the constant added to the divisor keeps the
    centroid off the bounds, so the clamp changes nothing.  On binary64
    numbers the strictness is lost once the total strength absorbs the
    1e-9: on (-20000000, 900, 900), threshold 850, dark line, the code
    returns exactly -1.0 (still within the closed interval). *)
Theorem process_offset_inside_exact :
  (forall (self self' : GrayscaleInterpreter.t) (vals : list Q) (r : Q),
     process vals self = (Return (Some r), self') -> -1 < r < 1)
  /\ Binary64.process 120 850 "dark" (-20000000) 900 900
     = Return (Some (-1)%float).
Proof.
  split.
  - intros self self' vals r H.
    exact (process_offset_strictly_inside self self' vals r H).
  - vm_compute. reflexivity.
Qed.

Lemma process_offset_inside_exact_witness :
  -1 < (-650000000000 # 650000000001) < 1.
Proof.
  apply (proj1 process_offset_inside_exact launcher_interp
           (set_baseline (Some [200; 900; 900]) launcher_interp)
           [200; 900; 900]).
  vm_compute. reflexivity.
Defined.

(** X3. In exact arithmetic mirroring the scene mirrors the offset: on the
    readings in reverse order [process] returns [None] where it returned
    [None] and the opposite number where it returned a number.  On
    binary64 numbers the two results can differ in the last place,
    because the total strength is summed in the other order: for a light
    line, threshold 0.1, sensitivity 120, the readings (65, 65, 260) give
    0.50038491146907771 and (260, 65, 65) give -0.50038491146907782. *)
Theorem process_mirror_exact :
  (forall (self : GrayscaleInterpreter.t) (L M R : Q),
     wf_baseline self ->
     exists o o' : option Q,
       fst (process [L; M; R] self) = Return o
       /\ fst (process [R; M; L] self) = Return o'
       /\ same_offset o' (mirrored o))
  /\ (Binary64.process 120 0.1 "light" 65 65 260
      = Return (Some 0.50038491146907771%float)
      /\ Binary64.process 120 0.1 "light" 260 65 65
         = Return (Some (-0.50038491146907782)%float)
      /\ PrimFloat.eqb (- 0.50038491146907771) (-0.50038491146907782)
         = false).
Proof.
  split.
  - intros self L M R Hwf. exact (process_mirror self L M R Hwf).
  - repeat split; vm_compute; reflexivity.
Qed.

Lemma process_mirror_exact_witness :
  exists o o' : option Q,
    fst (process [200; 900; 900] launcher_interp) = Return o
    /\ fst (process [900; 900; 200] launcher_interp) = Return o'
    /\ same_offset o' (mirrored o).
Proof.
  apply (proj1 process_mirror_exact launcher_interp 200 900 900). exact I.
Defined.

(** X11. The constructor derives Kd = Kp * dt * damping, and [control]
    and [reset] keep the gains.  In exact arithmetic, for such gains and
    a non-zero [dt], the steering law does not depend on [dt]: with a
    previous error [p] stored the angle is Kp * (e + damping * (e - p)),
    clamped.  On binary64 numbers [dt] cancels only up to rounding: with
    max_angle 30, response 1, damping 0.8, e = -0.84 and p = -0.68 the
    code computes -29.039999999999996 for dt = 0.02 and
    -29.039999999999999 for dt = 0.05. *)
Theorem control_dt_cancels_exact :
  (forall (c : PDController.t) (w : World) (e damping : Q),
     derived_gains c damping ->
     0 <= PDController.max_angle c -> ~ PDController.dt c == 0 ->
     PDController.has_prev c = true ->
     exists (a : Q) (c' : PDController.t) (w' : World),
       PDController.control (Some e) (c, w) = (Return (Some a), (c', w'))
       /\ a == clamp (PDController.max_angle c)
                 (PDController.Kp c
                  * (e + damping * (e - PDController.prev_error c)))
       /\ derived_gains c' damping
       /\ derived_gains (snd (PDController.reset c')) damping)
  /\ (Binary64Control.angle_of 30 0.02 1 0.8 (-0.68) (-0.84)
      = (-29.039999999999996)%float
      /\ Binary64Control.angle_of 30 0.05 1 0.8 (-0.68) (-0.84)
         = (-29.039999999999999)%float
      /\ PrimFloat.eqb (Binary64Control.angle_of 30 0.02 1 0.8 (-0.68) (-0.84))
           (Binary64Control.angle_of 30 0.05 1 0.8 (-0.68) (-0.84))
         = false).
Proof.
  split.
  - intros c w e damping Hg Hm Hdt Hp.
    exact (control_independent_of_dt c w e damping Hg Hm Hdt Hp).
  - repeat split; vm_compute; reflexivity.
Qed.

Lemma control_dt_cancels_exact_witness :
  exists (a : Q) (c' : PDController.t) (w' : World),
    PDController.control (Some 0.5)
      (PDController.mk 30 0.02 30 0.48 0.25 true, quiet_world)
    = (Return (Some a), (c', w'))
    /\ a == clamp 30 (30 * (0.5 + 0.8 * (0.5 - 0.25))).
Proof.
  destruct (proj1 control_dt_cancels_exact
              (PDController.mk 30 0.02 30 0.48 0.25 true) quiet_world 0.5 0.8)
    as (a & c' & w' & E & Ha & _).
  - vm_compute. reflexivity.
  - vm_compute. discriminate.
  - vm_compute. discriminate.
  - reflexivity.
  - exists a, c', w'. split; [exact E | exact Ha].
Defined.
